(** * Log warehouse: ingestion pipeline and dashboard query builder

    A shallow embedding of [logs.py] (format parsers, schema normaliser,
    dataset loader) and of the query construction of [dash.py]
    ([build_where_clause], [load_filtered_data]), followed by the properties
    established about them.

    Modelling scope.  A Python [str] is a Rocq [string]; the character
    classes ([str.isspace], [\w], [\d], [str.lower]) are Python's on the
    code points below 128 and treat every other character as an ordinary
    symbol (neither space, digit nor letter, unchanged by [lower]).  The
    file system, the [pandas] frame operations the code calls and the SQLite
    connection are modelled by the definitions of the modules [Py], [Re] and
    [Pd] below. *)

From Stdlib Require Import Ascii String ZArith Lia List.
From stdpp Require Import base strings list gmap pretty.

Local Open Scope nat_scope.

(* ===================================================================== *)
(** * Python strings and exceptions *)
(* ===================================================================== *)

Module Py.

(** The exceptions the modelled code can raise. *)
Inductive exn :=
| OSError            (* [open] could not open the file *)
| FileNotFoundError  (* raised by [find_file] *)
| ValueError
| IndexError
| KeyError
| OperationalError.  (* raised by the SQLite engine *)

(** A computation that returns a value or raises. *)
Inductive result (A : Type) :=
| Ok (a : A)
| Raise (e : exn).
Arguments Ok {A} a.
Arguments Raise {A} e.

Definition bind {A B} (m : result A) (f : A → result B) : result B :=
  match m with
  | Ok a => f a
  | Raise e => Raise e
  end.

Definition is_ok {A} (m : result A) : bool :=
  match m with Ok _ => true | Raise _ => false end.

(** [[f(x) for x in xs]]: the first exception aborts the comprehension. *)
Fixpoint mapM {A B} (f : A → result B) (xs : list A) : result (list B) :=
  match xs with
  | [] => Ok []
  | x :: xs' =>
      match f x with
      | Raise e => Raise e
      | Ok y =>
          match mapM f xs' with
          | Raise e => Raise e
          | Ok ys => Ok (y :: ys)
          end
      end
  end.

Definition code (c : ascii) : nat := nat_of_ascii c.

Definition between (lo hi : nat) (c : ascii) : bool :=
  (lo <=? code c) && (code c <=? hi).

(** [str.isspace] on one character: TAB..CR, FS..US and the blank. *)
Definition isspace (c : ascii) : bool := between 9 13 c || between 28 32 c.

Definition isdigit (c : ascii) : bool := between 48 57 c.
Definition isupper (c : ascii) : bool := between 65 90 c.
Definition islower (c : ascii) : bool := between 97 122 c.
Definition isalpha (c : ascii) : bool := isupper c || islower c.

Definition lower_char (c : ascii) : ascii :=
  if isupper c then ascii_of_nat (code c + 32) else c.

(** [s.lower()] *)
Fixpoint lower (s : string) : string :=
  match s with
  | EmptyString => EmptyString
  | String c s' => String (lower_char c) (lower s')
  end.

(** [s.lstrip()], [s.rstrip()], [s.strip()] *)
Fixpoint lstrip (s : string) : string :=
  match s with
  | EmptyString => EmptyString
  | String c s' => if isspace c then lstrip s' else s
  end.

Definition rstrip (s : string) : string := String.rev (lstrip (String.rev s)).

Definition strip (s : string) : string := rstrip (lstrip s).

(** [s.split(maxsplit=n)] with the default (whitespace) separator.
    [cur] is the token being read, reversed ([None] between tokens);
    [maxcount] is the number of splits still allowed.  When no split is
    left, the rest of the string from the next non-blank character on is
    the last token, trailing blanks included. *)
Fixpoint split_go (maxcount : nat) (cur : option string) (s : string)
  : list string :=
  match s with
  | EmptyString =>
      match cur with
      | None => []
      | Some t => [String.rev t]
      end
  | String c s' =>
      match cur with
      | None =>
          if isspace c then split_go maxcount None s'
          else
            match maxcount with
            | 0 => [s]
            | S m => split_go m (Some (String c EmptyString)) s'
            end
      | Some t =>
          if isspace c then String.rev t :: split_go maxcount None s'
          else split_go maxcount (Some (String c t)) s'
      end
  end.

Definition split (maxsplit : nat) (s : string) : list string :=
  split_go maxsplit None s.

(** [s.split()]: no bound on the number of splits. *)
Definition split_all (s : string) : list string :=
  split_go (String.length s) None s.

(** [sep.join(parts)] *)
Fixpoint join (sep : string) (parts : list string) : string :=
  match parts with
  | [] => EmptyString
  | [x] => x
  | x :: rest => x +:+ sep +:+ join sep rest
  end.

(** [xs[-1]] *)
Definition last_item {A} (xs : list A) : result A :=
  match last xs with
  | Some x => Ok x
  | None => Raise IndexError
  end.

(** [os.path.join(a, b)] on POSIX paths. *)
Definition ends_with_slash (a : string) : bool :=
  match String.rev a with
  | String "/" _ => true
  | _ => false
  end.

Definition path_join (a b : string) : string :=
  match b with
  | String "/" _ => b
  | _ =>
      if bool_decide (a = EmptyString) || ends_with_slash a
      then a +:+ b
      else a +:+ "/" +:+ b
  end.

End Py.

(** [result] is a monad; stdpp's [x ← m; k] sequences two computations. *)
Global Instance result_ret : MRet Py.result := @Py.Ok.
Global Instance result_bind : MBind Py.result := λ A B f m, Py.bind m f.

(* ===================================================================== *)
(** * Regular expressions: the backtracking matcher of [re] *)
(* ===================================================================== *)

Module Re.

Inductive regex :=
| Eps
| Lit (c : ascii)                  (* a literal character *)
| Cls (p : ascii → bool)           (* a character class *)
| Cat (r1 r2 : regex)
| Star (greedy : bool) (r : regex) (* [r*] or [r*?] *)
| Grp (i : nat) (r : regex)        (* capture group number [i+1] *)
| Bol                              (* [^] *)
| Eol.                             (* [$] *)

Definition Plus (r : regex) : regex := Cat r (Star true r).

Fixpoint Rep (n : nat) (r : regex) : regex :=
  match n with
  | 0 => Eps
  | S n' => Cat r (Rep n' r)
  end.

Definition cat_all (rs : list regex) : regex := foldr Cat Eps rs.

(** The classes the patterns of the program use. *)
Definition word : regex :=
  Cls (λ c, Py.isalpha c || Py.isdigit c || bool_decide (c = "_"%char)).
Definition digit : regex := Cls Py.isdigit.
Definition space : regex := Cls Py.isspace.
Definition nonspace : regex := Cls (λ c, negb (Py.isspace c)).
Definition dot : regex := Cls (λ c, negb (bool_decide (c = "010"%char))).
Definition upper : regex := Cls Py.isupper.
Definition not_char (x : ascii) : regex := Cls (λ c, negb (bool_decide (c = x))).

Fixpoint ngroups (r : regex) : nat :=
  match r with
  | Cat r1 r2 => ngroups r1 `max` ngroups r2
  | Star _ r' => ngroups r'
  | Grp i r' => S i `max` ngroups r'
  | _ => 0
  end.

Definition lit_eq (ignorecase : bool) (c a : ascii) : bool :=
  if ignorecase then bool_decide (Py.lower_char c = Py.lower_char a)
  else bool_decide (c = a).

Abbreviation captures := (list (option string)).

(** The repetition [r*] ([greedy]) or [r*?]: [step] matches [r] once, [n]
    bounds the number of rounds by the length of the subject, and a round
    that consumes nothing is not repeated. *)
Fixpoint star_loop
    (step : nat → string → captures →
            (nat → string → captures → option captures) → option captures)
    (greedy : bool) (k : nat → string → captures → option captures)
    (n pos : nat) (s : string) (caps : captures) : option captures :=
  match n with
  | 0 => k pos s caps
  | S n' =>
      let again pos' s' caps' :=
        if pos <? pos' then star_loop step greedy k n' pos' s' caps' else None in
      if greedy then
        match step pos s caps again with
        | Some c => Some c
        | None => k pos s caps
        end
      else
        match k pos s caps with
        | Some c => Some c
        | None => step pos s caps again
        end
  end.

(** [rmatch ic r pos s caps k]: match [r] against [s], the rest of the
    subject from offset [pos]; on success continue with [k].  The first
    alternative that lets the continuation succeed wins, as in [re]. *)
Fixpoint rmatch (ic : bool) (r : regex) (pos : nat) (s : string)
    (caps : captures) (k : nat → string → captures → option captures)
  : option captures :=
  match r with
  | Eps => k pos s caps
  | Lit c =>
      match s with
      | String a s' => if lit_eq ic c a then k (S pos) s' caps else None
      | EmptyString => None
      end
  | Cls p =>
      match s with
      | String a s' => if p a then k (S pos) s' caps else None
      | EmptyString => None
      end
  | Cat r1 r2 =>
      rmatch ic r1 pos s caps (λ pos' s' caps', rmatch ic r2 pos' s' caps' k)
  | Star greedy r' =>
      star_loop (rmatch ic r') greedy k (String.length s) pos s caps
  | Grp i r' =>
      rmatch ic r' pos s caps
        (λ pos' s' caps', k pos' s' (<[i := Some (String.substring 0 (pos' - pos) s)]> caps'))
  | Bol => if pos =? 0 then k pos s caps else None
  | Eol =>
      match s with
      | EmptyString => k pos s caps
      | String "010" EmptyString => k pos s caps
      | _ => None
      end
  end.

Definition accept : nat → string → captures → option captures :=
  λ _ _ caps, Some caps.

(** [pattern.match(s)]: the groups of a match starting at offset 0. *)
Definition match_ (r : regex) (s : string) : option captures :=
  rmatch false r 0 s (replicate (ngroups r) None) accept.

(** [re.search(pattern, s, flags)]: whether some offset matches. *)
Fixpoint search_from (ic : bool) (r : regex) (pos : nat) (s : string) : bool :=
  match rmatch ic r pos s (replicate (ngroups r) None) accept with
  | Some _ => true
  | None =>
      match s with
      | EmptyString => false
      | String _ s' => search_from ic r (S pos) s'
      end
  end.

Definition search (ignorecase : bool) (r : regex) (s : string) : bool :=
  search_from ignorecase r 0 s.

(** A literal word, character by character. *)
Fixpoint lits (s : string) : list regex :=
  match s with
  | EmptyString => []
  | String c s' => Lit c :: lits s'
  end.

End Re.

(* ===================================================================== *)
(** * State and exceptions *)
(* ===================================================================== *)

(** A computation over a mutable state [S] that returns or raises; what it
    wrote before raising stays written. *)
Definition St (S A : Type) : Type := S → S * Py.result A.

Global Instance St_ret {S} : MRet (St S) := λ A a s, (s, Py.Ok a).
Global Instance St_bind {S} : MBind (St S) := λ A B f m s,
  match m s with
  | (s', Py.Ok a) => f a s'
  | (s', Py.Raise e) => (s', Py.Raise e)
  end.

Definition lift {S A} (m : Py.result A) : St S A := λ s, (s, m).

(** [try: body except Exception as e: handler(e)] *)
Definition try_except {S A} (body : St S A) (handler : Py.exn → St S A) : St S A :=
  λ s,
    match body s with
    | (s', Py.Ok a) => (s', Py.Ok a)
    | (s', Py.Raise e) => handler e s'
    end.

(* ===================================================================== *)
(** * The part of pandas the program uses *)
(* ===================================================================== *)

Module Pd.
Import Py.

Inductive cell :=
| CStr (s : string)
| CInt (z : Z)
| CNone
| CNaN.

(** A frame: a row index of [index_len] positions and named columns, in
    column order. *)
Record DataFrame := mkDF {
  index_len : nat;
  columns : list (string * list cell)
}.

Global Instance DataFrame_inhabited : Inhabited DataFrame := populate (mkDF 0 []).

Definition names (df : DataFrame) : list string := (columns df).*1.

Fixpoint assoc {A} (k : string) (l : list (string * A)) : option A :=
  match l with
  | [] => None
  | (k', v) :: l' => if decide (k' = k) then Some v else assoc k l'
  end.

(** [df[name]] as a list of cells, when the column exists. *)
Definition column (name : string) (df : DataFrame) : option (list cell) :=
  assoc name (columns df).

(** [range(lo, hi)] as a column of integers. *)
Definition range (lo hi : nat) : list cell :=
  (λ i, CInt (Z.of_nat i)) <$> seq lo (hi - lo).

(** Column [j] of a list of rows; a short row is padded. *)
Definition transpose (pad : cell) (names : list string) (rows : list (list cell))
  : list (string * list cell) :=
  imap (λ j n, (n, (λ row, nth j row pad) <$> rows)) names.

(** [pd.DataFrame(rows, columns=names)] for a list of tuples or lists:
    the widest row must have as many fields as there are names. *)
Definition DataFrame_of_rows (rows : list (list cell)) (names : list string)
  : result DataFrame :=
  match rows with
  | [] => Ok (mkDF 0 ((λ n, (n, [])) <$> names))
  | _ =>
      if decide (max_list (length <$> rows) = length names)
      then Ok (mkDF (length rows) (transpose CNone names rows))
      else Raise ValueError
  end.

(** The keys of a list of dicts, each once, in order of first appearance. *)
Fixpoint first_seen (seen ks : list string) : list string :=
  match ks with
  | [] => []
  | k :: ks' =>
      if bool_decide (k ∈ seen) then first_seen seen ks'
      else k :: first_seen (k :: seen) ks'
  end.

(** [pd.DataFrame(records)] for a list of dicts. *)
Definition DataFrame_of_records (records : list (list (string * cell))) : DataFrame :=
  let keys := first_seen [] (concat ((λ r, r.*1) <$> records)) in
  mkDF (length records)
       ((λ k, (k, (λ r, default CNaN (assoc k r)) <$> records)) <$> keys).

(** [pd.read_csv(path, names=names, usecols=range(len(names)), ...)]: the
    frame of the rows the reader kept. *)
Definition read_csv (kept : result (list (list cell))) (names : list string)
  : result DataFrame :=
  rows ← kept;
  Ok (mkDF (length rows) (transpose CNaN names rows)).

(** [len(df)] *)
Definition len (df : DataFrame) : nat := index_len df.

(** pandas' [_ensure_valid_index]: a frame without rows takes the index
    of the first non-empty list of values stored in it; the columns it has
    are filled with NaN. *)
Definition ensure_valid_index (n_values : nat) (df : DataFrame) : DataFrame :=
  if (index_len df =? 0) && (0 <? n_values)
  then mkDF n_values ((λ c, (c.1, replicate n_values CNaN)) <$> columns df)
  else df.

(** pandas' [_sanitize_column]: the check every list-like value stored as
    a column goes through; a length that differs from the index raises. *)
Definition sanitize_column (values : list cell) (df : DataFrame) : result DataFrame :=
  let df' := ensure_valid_index (length values) df in
  if length values =? index_len df' then Ok df' else Raise ValueError.

(** [df.insert(loc, name, values)] *)
Definition insert (loc : nat) (name : string) (values : list cell) (df : DataFrame)
  : result DataFrame :=
  if bool_decide (name ∈ names df) then Raise ValueError
  else
    df' ← sanitize_column values df;
    if length (columns df') <? loc then Raise IndexError
    else Ok (mkDF (index_len df')
                  (take loc (columns df') ++ (name, values) :: drop loc (columns df'))).

Fixpoint set_column (name : string) (values : list cell)
    (cols : list (string * list cell)) : list (string * list cell) :=
  match cols with
  | [] => [(name, values)]
  | (n, v) :: cols' =>
      if decide (n = name) then (n, values) :: cols'
      else (n, v) :: set_column name values cols'
  end.

(** [df[name] = values] for a list *)
Definition setitem_list (name : string) (values : list cell) (df : DataFrame)
  : result DataFrame :=
  df' ← sanitize_column values df;
  Ok (mkDF (index_len df') (set_column name values (columns df'))).

(** [df[name] = series] for a series over the index of [df] *)
Definition setitem_series (name : string) (values : list cell) (df : DataFrame)
  : DataFrame :=
  mkDF (index_len df) (set_column name values (columns df)).

(** [df[name] = v] for a scalar *)
Definition setitem_scalar (name : string) (v : cell) (df : DataFrame) : DataFrame :=
  mkDF (index_len df) (set_column name (replicate (index_len df) v) (columns df)).

(** [df[[k1, ..., kn]]] *)
Definition getitem_cols (ks : list string) (df : DataFrame) : result DataFrame :=
  cols ← mapM (λ k, match column k df with
                    | Some v => Ok (k, v)
                    | None => Raise KeyError
                    end) ks;
  Ok (mkDF (index_len df) cols).

(** [df.rename(columns={old: new})] *)
Definition rename (old new : string) (df : DataFrame) : DataFrame :=
  mkDF (index_len df)
       ((λ c, (if decide (c.1 = old) then new else c.1, c.2)) <$> columns df).

(** The rows of a frame. *)
Definition row (df : DataFrame) (i : nat) : list cell :=
  (λ c, nth i c.2 CNaN) <$> columns df.

Definition rows (df : DataFrame) : list (list cell) :=
  row df <$> seq 0 (index_len df).

(** [str(v)] of a cell, as [astype(str)] computes it.  For a missing value
    this is what pandas 2 gives; pandas 3 keeps the value missing, so the
    statements about joined or cleaned values are made for cells that hold
    a value, where the versions agree. *)
Definition str_of_cell (c : cell) : string :=
  match c with
  | CStr s => s
  | CInt z => pretty z
  | CNone => "None"
  | CNaN => "nan"
  end.

(** [df.astype(str)] *)
Definition astype_str (df : DataFrame) : DataFrame :=
  mkDF (index_len df)
       ((λ c : string * list cell, (c.1, (λ v, CStr (str_of_cell v)) <$> c.2))
          <$> columns df).

(** The fields of each row, as strings, joined by a blank. *)
Definition join_rows (df : DataFrame) : list cell :=
  (λ r, CStr (join " " (str_of_cell <$> r))) <$> rows df.

(** What an aggregation over the rows returns: a series, or a frame. *)
Inductive aggregate :=
| AggSeries (values : list cell)
| AggFrame (df : DataFrame).

(** [df.astype(str).agg(" ".join, axis=1)].  On a frame that has columns
    but no row, pandas tries the function on a dummy row of NaN, which
    [str.join] rejects, and returns a copy of the frame instead of a
    series. *)
Definition agg_join (df : DataFrame) : aggregate :=
  if (index_len df =? 0) && (match columns df with [] => false | _ => true end)
  then AggFrame (astype_str df)
  else AggSeries (join_rows df).

(** [df[name] = value] for the result of an aggregation over the rows of
    [df]: a series is stored as it is, a frame only if it has exactly one
    column. *)
Definition setitem_agg (name : string) (value : aggregate) (df : DataFrame)
  : result DataFrame :=
  match value with
  | AggSeries values => Ok (setitem_series name values df)
  | AggFrame f =>
      match columns f with
      | [(_, values)] => Ok (setitem_series name values df)
      | _ => Raise ValueError
      end
  end.

(** [df.to_sql(table, conn, if_exists="replace", index=False)] *)
Definition to_sql (table : string) (df : DataFrame) (db : gmap string DataFrame)
  : gmap string DataFrame :=
  <[table := df]> db.

End Pd.

(* ===================================================================== *)
(** * logs.py *)
(* ===================================================================== *)

Module Logs.
Import Py Re Pd.

(** The files the program reads: [walk dir] lists, top down, each
    directory under [dir] with its file names, as [os.walk] does;
    [read path] is the sequence of lines of the file, or [None] when it
    cannot be opened. *)
Record FS := {
  walk : string → list (string * list string);
  read : string → option (list string)
}.

(** [with open(path, "r", errors="ignore") as f: ... for line in f] *)
Definition open_lines (fs : FS) (path : string) : result (list string) :=
  match read fs path with
  | Some lines => Ok lines
  | None => Raise OSError
  end.

(** ** Regex parsers *)

Definition mac_pattern : regex :=
  cat_all [Bol; Grp 0 (Plus word); Plus space;
           Grp 1 (Plus digit); Plus space;
           Grp 2 (cat_all [Plus digit; Lit ":"; Plus digit; Lit ":"; Plus digit]);
           Plus space;
           Grp 3 (Plus nonspace); Plus space;
           Grp 4 (Plus (not_char "[")); Lit "["; Grp 5 (Plus digit); Lit "]"; Lit ":";
           Plus space; Grp 6 (Star true dot); Eol].

Definition android_pattern : regex :=
  cat_all [Bol; Grp 0 (cat_all [Rep 2 digit; Lit "-"; Rep 2 digit]); Plus space;
           Grp 1 (cat_all [Rep 2 digit; Lit ":"; Rep 2 digit; Lit ":"; Rep 2 digit;
                           Lit "."; Plus digit]);
           Plus space;
           Grp 2 (Plus digit); Plus space;
           Grp 3 (Plus digit); Plus space;
           Grp 4 upper; Plus space;
           Grp 5 (Plus nonspace); Lit ":"; Plus space;
           Grp 6 (Star true dot); Eol].

Definition openstack_pattern : regex :=
  cat_all [Bol; Grp 0 (Plus nonspace); Plus space;
           Grp 1 (cat_all [Rep 4 digit; Lit "-"; Rep 2 digit; Lit "-"; Rep 2 digit]);
           Plus space;
           Grp 2 (cat_all [Rep 2 digit; Lit ":"; Rep 2 digit; Lit ":"; Rep 2 digit;
                           Lit "."; Plus digit]);
           Plus space;
           Grp 3 (Plus digit); Plus space;
           Grp 4 (Plus word); Plus space;
           Grp 5 (Plus nonspace); Plus space;
           Grp 6 (cat_all [Lit "["; Star false dot; Lit "]"]); Plus space;
           Grp 7 (Star true dot); Eol].

Definition openstack_group_names : list string :=
  ["Logrecord"; "Date"; "Time"; "Pid"; "Level"; "Component"; "ADDR"; "Content"].

Definition group_cell (g : option string) : cell :=
  match g with
  | Some s => CStr s
  | None => CNone
  end.

(** [m.groups()] *)
Definition groups (m : captures) : list cell := group_cell <$> m.

(** [m.groupdict()] *)
Definition groupdict (group_names : list string) (m : captures) : list (string * cell) :=
  zip group_names (groups m).

(** The loop
    [for line in f: m = pattern.match(line.strip()); if m: rows.append(m.groups())] *)
Definition match_rows (pattern : regex) (rows : list (list cell)) (lines : list string)
  : list (list cell) :=
  foldl (λ rows line,
           match match_ pattern (strip line) with
           | Some m => rows ++ [groups m]
           | None => rows
           end) rows lines.

Definition mac_columns : list string :=
  ["Month"; "Date"; "Time"; "User"; "Component"; "PID"; "Content"].

Definition parse_mac_log (fs : FS) (file_path : string) : result DataFrame :=
  lines ← open_lines fs file_path;
  let rows := match_rows mac_pattern [] lines in
  DataFrame_of_rows rows mac_columns.

Definition android_columns : list string :=
  ["Date"; "Time"; "Pid"; "Tid"; "Level"; "Component"; "Content"].

Definition parse_android_log (fs : FS) (file_path : string) : result DataFrame :=
  lines ← open_lines fs file_path;
  let rows := match_rows android_pattern [] lines in
  DataFrame_of_rows rows android_columns.

(** The inner loop of [load_openstack_logs], over one file. *)
Definition openstack_rows (rows : list (list (string * cell))) (lines : list string)
  : list (list (string * cell)) :=
  foldl (λ rows line,
           match match_ openstack_pattern (strip line) with
           | Some m => rows ++ [groupdict openstack_group_names m]
           | None => rows
           end) rows lines.

(** The outer loop, over the files in the order given. *)
Fixpoint openstack_files (fs : FS) (rows : list (list (string * cell)))
    (file_paths : list string) : result (list (list (string * cell))) :=
  match file_paths with
  | [] => Ok rows
  | path :: rest =>
      lines ← open_lines fs path;
      openstack_files fs (openstack_rows rows lines) rest
  end.

Definition load_openstack_logs (fs : FS) (file_paths : list string) : result DataFrame :=
  rows ← openstack_files fs [] file_paths;
  let df := DataFrame_of_records rows in
  insert 0 "LineId" (range 1 (len df + 1)) df.

(** ** Helpers *)

(** [find_file]: the first file, in walk order, whose name the pattern
    is found in, ignoring case. *)
Fixpoint first_match (pattern : regex) (root : string) (files : list string)
  : option string :=
  match files with
  | [] => None
  | f :: files' =>
      if search true pattern f then Some (path_join root f)
      else first_match pattern root files'
  end.

Fixpoint find_in_walk (pattern : regex) (dirs : list (string * list string))
  : result string :=
  match dirs with
  | [] => Raise FileNotFoundError
  | (root, files) :: dirs' =>
      match first_match pattern root files with
      | Some path => Ok path
      | None => find_in_walk pattern dirs'
      end
  end.

Definition find_file (fs : FS) (dataset_dir : string) (pattern : regex) : result string :=
  find_in_walk pattern (walk fs dataset_dir).

Definition log_suffix : list regex := [Lit "."] ++ lits "log" ++ [Eol].

(** [r"BGL\.log$"], [r"SSH.*\.log$"], [r"Mac.*\.log$"], [r"Android.*\.log$"] *)
Definition bgl_file : regex := cat_all (lits "BGL" ++ log_suffix).
Definition ssh_file : regex := cat_all (lits "SSH" ++ [Star true dot] ++ log_suffix).
Definition mac_file : regex := cat_all (lits "Mac" ++ [Star true dot] ++ log_suffix).
Definition android_file : regex := cat_all (lits "Android" ++ [Star true dot] ++ log_suffix).

(** ** Standardize schema *)

(** Frames are objects: a heap of frames addressed by position, so that
    two names for one frame see each other's writes. *)
Abbreviation heap := (list DataFrame).

Definition new (df : DataFrame) : St heap nat := λ h, (h ++ [df], Ok (length h)).
Definition get (l : nat) : St heap DataFrame := λ h, (h, Ok (h !!! l)).
Definition put (l : nat) (df : DataFrame) : St heap unit := λ h, (<[l := df]> h, Ok ()).

Definition standardize (df : nat) (content_col source : string) : St heap nat :=
  d ← get df;
  df ← (if bool_decide (content_col ∉ names d)
        then
          (* fallback: join all cols as content *)
          d ← lift (setitem_agg "Content" (agg_join d) d);
          _ ← put df d;
          mret df
        else new d);
  d ← get df;
  sel ← lift (getitem_cols [content_col] d);
  df ← new (rename content_col "Content" sel);
  d ← get df;
  d ← lift (insert 0 "LineId" (range 1 (len d + 1)) d);
  _ ← put df d;
  d ← get df;
  _ ← put df (setitem_scalar "EventId" CNone d);
  d ← get df;
  _ ← put df (setitem_scalar "EventTemplate" CNone d);
  d ← get df;
  _ ← put df (setitem_scalar "Source" (CStr source) d);
  mret df.

(** ** Load into SQLite *)

(** What the loader prints. *)
Inductive message :=
| Loaded (rows : nat) (table : string)
| LoadedOk (rows : nat) (table : string)
| Failed (name : string) (e : exn)
| NoParser (name : string).

(** The connection (one frame per table) and the standard output. *)
Record world := mkWorld {
  db : gmap string DataFrame;
  stdout : list message
}.

Definition print (m : message) : St world unit :=
  λ w, (mkWorld (db w) (stdout w ++ [m]), Ok ()).

Definition df_to_sql (table : string) (df : DataFrame) : St world unit :=
  λ w, (mkWorld (to_sql table df (db w)) (stdout w), Ok ()).

Definition bgl_columns : list string :=
  ["Label"; "Timestamp"; "Date"; "Node"; "Time"; "NodeRepeat"; "Type"; "Component"; "Level"].

Definition openssh_columns : list string :=
  ["Date"; "Day"; "Time"; "Component"; "Pid"; "Content"].

(** The loop of the [openssh] branch. *)
Definition openssh_rows (rows : list (list cell)) (lines : list string)
  : list (list cell) :=
  foldl (λ rows line,
           let parts := split 5 (strip line) in
           if length parts =? 6 then rows ++ [CStr <$> parts] else rows) rows lines.

Section loader.
(** [structured path]: the rows [pd.read_csv] keeps of the file, with
    its python engine, whitespace separator and
    [on_bad_lines="skip"], or the exception it raises. *)
Variable structured : string → result (list (list cell)).
Variable fs : FS.

Definition load_bgl (dataset_dir : string) : result DataFrame :=
  file_path ← find_file fs dataset_dir bgl_file;
  (* Step 1: Load only the first 9 structured columns *)
  df ← read_csv (structured file_path) bgl_columns;
  (* Step 2: Extract the 10th "Content" column from raw lines *)
  lines ← open_lines fs file_path;
  contents ← mapM (λ line, last_item (split 9 (strip line))) lines;
  df ← setitem_list "Content" (CStr <$> contents) df;
  (* Step 3: Add LineId *)
  insert 0 "LineId" (range 1 (len df + 1)) df.

Definition load_openssh (dataset_dir : string) : result DataFrame :=
  file_path ← find_file fs dataset_dir ssh_file;
  lines ← open_lines fs file_path;
  let rows := openssh_rows [] lines in
  df ← DataFrame_of_rows rows openssh_columns;
  insert 0 "LineId" (range 1 (len df + 1)) df.

Definition load_openstack (dataset_dir : string) : result DataFrame :=
  let log_files := [path_join dataset_dir "openstack_normal1.log";
                    path_join dataset_dir "openstack_normal2.log"] in
  load_openstack_logs fs log_files.

Definition load_mac (dataset_dir : string) : result DataFrame :=
  file_path ← find_file fs dataset_dir mac_file;
  df ← parse_mac_log fs file_path;
  df ← insert 0 "LineId" (range 1 (len df + 1)) df;
  getitem_cols ["LineId"; "Month"; "Date"; "Time"; "User"; "Component"; "PID"; "Content"] df.

Definition load_android (dataset_dir : string) : result DataFrame :=
  file_path ← find_file fs dataset_dir android_file;
  df ← parse_android_log fs file_path;
  df ← insert 0 "LineId" (range 1 (len df + 1)) df;
  getitem_cols ["LineId"; "Date"; "Time"; "Pid"; "Tid"; "Level"; "Component"; "Content"] df.

(** The body of the [try]: [Some df] reaches the common tail, [None]
    is the early [return]. *)
Definition load_branch (name dataset_dir table_name : string)
  : St world (option DataFrame) :=
  if decide (name = "bgl") then
    df ← lift (load_bgl dataset_dir); mret (Some df)
  else if decide (name = "openssh") then
    df ← lift (load_openssh dataset_dir); mret (Some df)
  else if decide (name = "openstack") then
    df ← lift (load_openstack dataset_dir);
    _ ← df_to_sql table_name df;
    _ ← print (Loaded (len df) table_name);
    mret (Some df)
  else if decide (name = "mac") then
    df ← lift (load_mac dataset_dir); mret (Some df)
  else if decide (name = "android_v1") then
    df ← lift (load_android dataset_dir); mret (Some df)
  else
    _ ← print (NoParser name);
    mret None.

Definition load_dataset_to_sqlite (name dataset_dir : string) : St world unit :=
  let table_name := "logs_" +:+ name in
  try_except
    (odf ← load_branch name dataset_dir table_name;
     match odf with
     | None => mret ()
     | Some df =>
         (* Load into SQLite *)
         _ ← df_to_sql table_name df;
         print (LoadedOk (len df) table_name)
     end)
    (λ e, print (Failed name e)).

(** The state the connection is left in. *)
Definition run_load (name dataset_dir : string) (w : world) : world :=
  (load_dataset_to_sqlite name dataset_dir w).1.

End loader.

End Logs.

(* ===================================================================== *)
(** * dash.py: query construction *)
(* ===================================================================== *)

Module Dash.
Import Py Pd.

(** A filter dict, as [filters.items()] enumerates it. *)
Abbreviation FilterSpec := (list (string * list string)).

Definition placeholders (n : nat) : string := join "," (replicate n "?").

Definition clause (col : string) (n : nat) : string :=
  "LOWER(" +:+ col +:+ ") IN (" +:+ placeholders n +:+ ")".

(** One turn of the loop of [build_where_clause]. *)
Definition add_filter (acc : list string * list string) (item : string * list string)
  : list string * list string :=
  let '(clauses, params) := acc in
  let '(col, vals) := item in
  if bool_decide (vals ≠ []) then
    (clauses ++ [clause col (length vals)], params ++ (lower <$> vals))
  else (clauses, params).

Definition build_where_clause (filters : FilterSpec) : string * list string :=
  let '(clauses, params) := foldl add_filter ([], []) filters in
  let where_caluse :=
    if bool_decide (clauses ≠ []) then " WHERE " +:+ join " AND " clauses else "" in
  (where_caluse, params).

(** The values [limit] takes: [None] or an integer. *)
Inductive limit_arg :=
| LimitNone
| LimitInt (n : Z).

Definition default_limit : limit_arg := LimitInt 500000.

(** Python truthiness of [limit]. *)
Definition truthy (limit : limit_arg) : bool :=
  match limit with
  | LimitNone => false
  | LimitInt n => negb (n =? 0)%Z
  end.

(** [f"{limit}"] *)
Definition format_limit (limit : limit_arg) : string :=
  match limit with
  | LimitNone => "None"
  | LimitInt n => pretty n
  end.

Definition limit_clause (limit : limit_arg) : string :=
  if truthy limit then "LIMIT " +:+ format_limit limit else "".

Definition select_query (table where_clause limit_clause : string) : string :=
  "SELECT * FROM " +:+ table +:+ " " +:+ where_clause +:+ " " +:+ limit_clause +:+ ";".

(** A statement with its bound parameters, as handed to the engine. *)
Definition statement : Type := string * option (list string).

(** The connection: the tables of the store and the statements executed
    on it so far. *)
Record connection := mkConn {
  tables : gmap string DataFrame;
  executed : list statement
}.

(** [params or None] *)
Definition or_none (params : list string) : option (list string) :=
  match params with
  | [] => None
  | _ => Some params
  end.

Section store.
(** What the SQLite engine answers to a statement on given tables. *)
Variable engine : gmap string DataFrame → statement → result DataFrame.

(** [pd.read_sql_query(query, conn, params=params)] *)
Definition read_sql_query (query : string) (params : option (list string))
  : St connection DataFrame :=
  λ conn, (mkConn (tables conn) (executed conn ++ [(query, params)]),
           engine (tables conn) (query, params)).

Definition load_filtered_data (table : string) (filters : FilterSpec)
    (limit : limit_arg) : St connection DataFrame :=
  let '(where_clause, params) := build_where_clause filters in
  let limit_clause := limit_clause limit in
  let query := select_query table where_clause limit_clause in
  read_sql_query query (or_none params).
End store.

End Dash.

(* ===================================================================== *)
(** * Vocabulary of the specification *)
(* ===================================================================== *)

Module Spec.
Import Py Re Pd Logs Dash.

(** Occurrences of a character in a text. *)
Fixpoint count_char (c : ascii) (s : string) : nat :=
  match s with
  | EmptyString => 0
  | String a s' => (if decide (a = c) then 1 else 0) + count_char c s'
  end.

(** What a filter exposes to the query text: its columns and, for each,
    how many values were selected. *)
Definition shape (filters : FilterSpec) : list (string * nat) :=
  (λ it : string * list string, (it.1, length it.2)) <$> filters.

(** The predicate section for a shape: one membership clause per column
    with at least one value, joined with AND; nothing when there is none. *)
Definition where_text (sh : list (string * nat)) : string :=
  match (λ cn, clause cn.1 cn.2) <$> filter (λ cn : string * nat, cn.2 ≠ 0) sh with
  | [] => ""
  | clauses => " WHERE " +:+ join " AND " clauses
  end.

Definition clauses_of (filters : FilterSpec) : list string :=
  (λ cn, clause cn.1 cn.2) <$> filter (λ cn : string * nat, cn.2 ≠ 0) (shape filters).

(** The bound parameters: every selected value, lower-cased, column by
    column. *)
Definition bound_values (filters : FilterSpec) : list string :=
  concat ((λ it : string * list string, lower <$> it.2) <$> filters).

(** A retrieval request names a column the target table does not have. *)
Definition absent_column (conn : connection) (table : string) (filters : FilterSpec)
  : Prop :=
  ∃ df col, tables conn !! table = Some df ∧ col ∈ filters.*1 ∧ col ∉ names df.

(** Failing fast: the request raises and no statement reached the store. *)
Definition fails_fast (engine : gmap string DataFrame → statement → result DataFrame)
    (conn : connection) (table : string) (filters : FilterSpec) (limit : limit_arg)
  : Prop :=
  ∃ e, load_filtered_data engine table filters limit conn = (conn, Raise e).

(** The statement a retrieval request amounts to. *)
Definition statement_of (table : string) (filters : FilterSpec) (limit : limit_arg)
  : statement :=
  (select_query table (where_text (shape filters)) (limit_clause limit),
   or_none (bound_values filters)).

(** The unified shape the normaliser builds around a content column. *)
Definition normalized (n : nat) (content : list cell) (source : string) : DataFrame :=
  mkDF n [("LineId", range 1 (n + 1)); ("Content", content);
          ("EventId", replicate n CNone); ("EventTemplate", replicate n CNone);
          ("Source", replicate n (CStr source))].

(** The input frame after the fallback assignment [df["Content"] = ...]. *)
Definition with_joined_content (d : DataFrame) : DataFrame :=
  setitem_series "Content" (join_rows d) d.


(** The records a regex parser keeps: one per line the pattern matches,
    in input order; a line it does not match contributes nothing. *)
Definition kept_rows (pattern : regex) (lines : list string) : list (list cell) :=
  omap (λ line, groups <$> match_ pattern (strip line)) lines.

(** The same for the named groups of the distributed-service pattern. *)
Definition kept_records (lines : list string) : list (list (string * cell)) :=
  omap (λ line, groupdict openstack_group_names <$> match_ openstack_pattern (strip line))
       lines.

(** The rows the key-path parser keeps: the lines that split in six. *)
Definition kept_parts (lines : list string) : list (list cell) :=
  (fmap CStr) <$> filter (λ parts : list string, length parts = 6)
                         ((λ line, split 5 (strip line)) <$> lines).

(** The frame of a list of rows under given column names. *)
Definition frame (names : list string) (rows : list (list cell)) : DataFrame :=
  mkDF (length rows) (transpose CNone names rows).

(** A frame with the column [LineId] = 1, 2, ..., [len] put in front. *)
Definition numbered (d : DataFrame) : DataFrame :=
  mkDF (index_len d) (("LineId", range 1 (index_len d + 1)) :: columns d).



(** A line the key-path parser keeps: its split has exactly six parts. *)
Definition six_parts (line : string) : Prop := length (split 5 (strip line)) = 6.

(** Whether a token is being read: it is part of the output already. *)
Definition pending (cur : option string) : nat :=
  match cur with
  | Some _ => 1
  | None => 0
  end.

(** The frame a source's branch of the loader computes, or the exception
    it raises; [None] for a source that has no parser. *)
Definition source_frame (structured : string → result (list (list cell))) (fs : FS)
    (name dataset_dir : string) : option (result DataFrame) :=
  if decide (name = "bgl") then Some (load_bgl structured fs dataset_dir)
  else if decide (name = "openssh") then Some (load_openssh fs dataset_dir)
  else if decide (name = "openstack") then Some (load_openstack fs dataset_dir)
  else if decide (name = "mac") then Some (load_mac fs dataset_dir)
  else if decide (name = "android_v1") then Some (load_android fs dataset_dir)
  else None.

(** What a run prints. *)
Definition run_messages (name : string) (outcome : option (result DataFrame))
  : list message :=
  match outcome with
  | Some (Ok df) =>
      (if decide (name = "openstack") then [Loaded (len df) ("logs_" +:+ name)] else [])
        ++ [LoadedOk (len df) ("logs_" +:+ name)]
  | Some (Raise e) => [Failed name e]
  | None => [NoParser name]
  end.

(** The tables after a run: the source's table is replaced by the frame
    computed, every other table is kept; nothing changes on failure. *)
Definition run_tables (name : string) (outcome : option (result DataFrame))
    (db : gmap string DataFrame) : gmap string DataFrame :=
  match outcome with
  | Some (Ok df) => <["logs_" +:+ name := df]> db
  | _ => db
  end.

(** The two passes of the fixed-width branch over the file found. *)
Definition bgl_passes (structured : string → result (list (list cell))) (fs : FS)
    (dataset_dir : string) (rows : list (list cell)) (contents : list string) : Prop :=
  ∃ file_path lines,
    find_file fs dataset_dir bgl_file = Ok file_path
    ∧ structured file_path = Ok rows
    ∧ read fs file_path = Some lines
    ∧ mapM (λ line, last_item (split 9 (strip line))) lines = Ok contents.

(** A cell that holds a value. *)
Definition present (v : cell) : bool :=
  match v with
  | CNone | CNaN => false
  | _ => true
  end.

(** A frame without missing values. *)
Definition complete (d : DataFrame) : Prop :=
  Forall (λ c : string * list cell, Forall (λ v, present v = true) c.2) (columns d).

End Spec.

(* ===================================================================== *)
(** * Sample inputs *)
(* ===================================================================== *)

Module Samples.
Import Py Re Pd Logs Dash Spec.

(** An engine that rejects every statement, and a store with one table. *)
Definition rejecting_engine : gmap string DataFrame → statement → result DataFrame :=
  λ _ _, Raise OperationalError.

Definition one_table : connection :=
  mkConn {[ "logs_mac" := mkDF 1 [("LineId", [CInt 1]); ("team", [CStr "rtl_team"])] ]} [].

(** The line terminator. *)
Definition nl : string := String "010" EmptyString.

(** A parsed table without a [Content] field. *)
Definition two_fields : DataFrame :=
  mkDF 2 [("A", [CStr "x"; CStr "u"]); ("B", [CStr "y"; CStr "v"])].


(** Key-path lines: two that split in six, one with four tokens. *)
Definition ssh_good1 : string :=
  "Dec 10 06:55:46 LabSZ sshd[24200]: reverse mapping checking getaddrinfo failed" +:+ nl.
Definition ssh_good2 : string :=
  "Dec 10 06:55:48 LabSZ sshd[24200]: Failed password for invalid user webmaster" +:+ nl.
Definition ssh_short : string :=
  "Dec 10 06:55:46 LabSZ" +:+ nl.

Definition bgl_line : string :=
  "- 1117838570 2005.06.03 R02-M1-N0-C:J12-U11 2005-06-03-15.42.50.363779 "
    +:+ "R02-M1-N0-C:J12-U11 RAS KERNEL INFO instruction cache parity error corrected"
    +:+ nl.

Definition mac_line : string :=
  "Jan 1 00:00:01 host kernel[123]: boot complete" +:+ nl.

(** A tree with one log per source. *)
Definition sample_fs : FS := {|
  walk dir :=
    if decide (dir = "raw/bgl") then [("raw/bgl", ["readme.txt"; "BGL.log"])]
    else if decide (dir = "raw/openssh") then [("raw/openssh", ["SSH.log"])]
    else if decide (dir = "raw/mac") then [("raw/mac", []); ("raw/mac/Mac", ["Mac.log"])]
    else [];
  read path :=
    if decide (path = "raw/bgl/BGL.log") then Some [bgl_line]
    else if decide (path = "raw/openssh/SSH.log") then Some [ssh_good1; ssh_short; ssh_good2]
    else if decide (path = "raw/mac/Mac/Mac.log") then Some [mac_line; "garbage"; mac_line]
    else None
|}.

Definition nine_fields : list cell :=
  [CStr "-"; CInt 1117838570; CStr "2005.06.03"; CStr "R02-M1-N0-C:J12-U11";
   CStr "2005-06-03-15.42.50.363779"; CStr "R02-M1-N0-C:J12-U11"; CStr "RAS";
   CStr "KERNEL"; CStr "INFO"].

(** Structured passes that keep no row, and two rows, of any file. *)
Definition keeps_nothing : string → result (list (list cell)) := λ _, Ok [].
Definition keeps_two : string → result (list (list cell)) :=
  λ _, Ok [nine_fields; nine_fields].

Definition empty_world : world := mkWorld ∅ [].

End Samples.

Import Py Re Pd Logs Dash Spec Samples.

(* ===================================================================== *)
(** * Further vocabulary *)
(* ===================================================================== *)

Module More.
Import Py Re Pd Logs Dash Spec.


(** A file name the pattern is found in, ignoring case. *)
Definition found_in (pattern : regex) (rf : string * string) : Prop :=
  search true pattern rf.2 = true.

Global Instance found_in_dec pattern rf : Decision (found_in pattern rf).
Proof. unfold found_in. apply _. Defined.

(** A file that opens. *)
Definition readable (fs : FS) (path : string) : bool :=
  match read fs path with
  | Some _ => true
  | None => false
  end.

(** Whether a text contains a whitespace character. *)
Fixpoint has_space (s : string) : bool :=
  match s with
  | EmptyString => false
  | String c s' => isspace c || has_space s'
  end.

(** Whether a text consists of whitespace only. *)
Fixpoint all_space (s : string) : bool :=
  match s with
  | EmptyString => true
  | String c s' => isspace c && all_space s'
  end.

(** A field as [split] cuts it: not empty and free of whitespace. *)
Definition token (s : string) : Prop := s ≠ EmptyString ∧ has_space s = false.

(** A line with nothing but whitespace on it. *)
Definition blank (line : string) : bool := all_space line.

(** The content pass of the fixed-width branch, for one line. *)
Definition content_of (line : string) : result string :=
  last_item (split 9 (strip line)).

(** The structured pass as [pd.read_csv] performs it here: its python
    engine, given [usecols], drops no line for its number of fields, so it
    keeps one row of every line that is not blank. *)
Definition one_row_per_record (rows : list (list cell)) (lines : list string) : Prop :=
  length rows = length (filter (λ line, blank line = false) lines).

(** The same line with whitespace put before and after it. *)
Definition padded (before after line : string) : string :=
  before +:+ line +:+ after.

End More.

Import More.

(* ===================================================================== *)
(** * dash.py: the filter options *)
(* ===================================================================== *)

Module Options.
Import Py Pd Dash.

Definition upper_char (c : ascii) : ascii :=
  if islower c then ascii_of_nat (code c - 32) else c.

(** [s.upper()] *)
Fixpoint upper (s : string) : string :=
  match s with
  | EmptyString => EmptyString
  | String c s' => String (upper_char c) (upper s')
  end.

(** A text of ASCII characters only, on which the case mappings here are
    Python's. *)
Fixpoint is_ascii (s : string) : bool :=
  match s with
  | EmptyString => true
  | String c s' => (code c <? 128) && is_ascii s'
  end.

(** A cell that holds an integer or an ASCII text. *)
Definition plain (v : cell) : bool :=
  match v with
  | CStr s => is_ascii s
  | CInt _ => true
  | CNone | CNaN => false
  end.

(** A frame of such cells. *)
Definition plain_frame (df : DataFrame) : Prop :=
  Forall (λ c : string * list cell, Forall (λ v, plain v = true) c.2) (columns df).

(** One value through
    [.astype(str).str.strip().str.upper().replace("NAN", "")]:
    a value that reads [NAN] after the first three steps becomes the empty
    text, any other is kept. *)
Definition clean_value (v : cell) : cell :=
  let s := upper (strip (str_of_cell v)) in
  CStr (if decide (s = "NAN") then "" else s).

(** The body of the loop of [get_filter_options] for one column:
    [if col in df: df[col] = ...]. *)
Definition clean_column (df : DataFrame) (col : string) : DataFrame :=
  match column col df with
  | Some values => setitem_series col (clean_value <$> values) df
  | None => df
  end.

(** The loop [for col in df.columns] over the frame the query returned. *)
Definition clean_options (df : DataFrame) : DataFrame :=
  foldl clean_column df (names df).

(** The text of a cell that holds a string. *)
Definition text_of (v : cell) : string :=
  match v with
  | CStr s => s
  | _ => EmptyString
  end.

End Options.

Import Options.

(* ===================================================================== *)
(** * The SQLite statements of the metadata scripts *)
(* ===================================================================== *)

(** The database as one connection sees it: its tables in the order of
    [sqlite_master], each with its declared columns, its primary key and its
    rows.  Identifiers compare without regard to ASCII case, values are
    stored as they are bound (the scripts bind texts to TEXT columns), and a
    statement that fails leaves the database as it was.  The scripts splice
    table and column names into their statements unquoted: the names here
    are those SQLite reads as one identifier. *)
Module Sqlite.
Import Py.

Inductive value :=
| Null
| Text (s : string)
| Integer (z : Z)
| Real (thousandths : Z).  (* a number with three decimals, as [round(x, 3)] *)

Global Instance value_eq_dec : EqDecision value.
Proof. solve_decision. Defined.

Global Instance value_countable : Countable value.
Proof.
  refine (inj_countable'
    (λ v, match v with
          | Null => inl ()
          | Text s => inr (inl s)
          | Integer z => inr (inr (inl z))
          | Real z => inr (inr (inr z))
          end)
    (λ x, match x with
          | inl _ => Null
          | inr (inl s) => Text s
          | inr (inr (inl z)) => Integer z
          | inr (inr (inr z)) => Real z
          end) _).
  by intros [].
Defined.

Record table := mkTable {
  col_names : list string;            (* declared columns, in order *)
  primary_key : option string;        (* the column declared PRIMARY KEY *)
  records : list (Z * list value)     (* rowid and one value per column *)
}.

Abbreviation database := (list (string * table)).

(** What a statement can fail with. *)
Inductive error :=
| no_such_table (name : string)       (* sqlite3.OperationalError *)
| no_such_column (name : string)      (* sqlite3.OperationalError *)
| duplicate_column (name : string)    (* sqlite3.OperationalError *)
| unique_failed (table : string).     (* sqlite3.IntegrityError *)

Inductive answer (A : Type) :=
| Done (a : A)
| Failed (e : error).
Arguments Done {A} a.
Arguments Failed {A} e.

Definition answer_bind {A B} (m : answer A) (f : A → answer B) : answer B :=
  match m with
  | Done a => f a
  | Failed e => Failed e
  end.

Definition same_name (a b : string) : bool := bool_decide (lower a = lower b).

Fixpoint find_table (name : string) (db : database) : option table :=
  match db with
  | [] => None
  | (n, t) :: db' => if same_name n name then Some t else find_table name db'
  end.

Fixpoint put_table (name : string) (t : table) (db : database) : database :=
  match db with
  | [] => []
  | (n, t0) :: db' =>
      if same_name n name then (n, t) :: db' else (n, t0) :: put_table name t db'
  end.

Fixpoint col_index (col : string) (cols : list string) : option nat :=
  match cols with
  | [] => None
  | c :: cols' => if same_name c col then Some 0 else S <$> col_index col cols'
  end.

Definition the_table (name : string) (db : database) : answer table :=
  match find_table name db with
  | Some t => Done t
  | None => Failed (no_such_table name)
  end.

Definition the_column (col : string) (t : table) : answer nat :=
  match col_index col (col_names t) with
  | Some j => Done j
  | None => Failed (no_such_column col)
  end.

(** The value of a row under the column at position [j]. *)
Definition field (j : nat) (r : Z * list value) : value := nth j r.2 Null.

(** The values other than NULL under the primary key are all different. *)
Definition keys_unique (t : table) : bool :=
  match primary_key t with
  | None => true
  | Some k =>
      match col_index k (col_names t) with
      | None => true
      | Some j =>
          bool_decide (NoDup (filter (λ v, v ≠ Null) (field j <$> records t)))
      end
  end.

(** A statement that rewrites one table: it is refused when the primary
    key would no longer be unique. *)
Definition store_table (name : string) (t : table) (db : database) : answer database :=
  if keys_unique t then Done (put_table name t db) else Failed (unique_failed name).

(** [CREATE TABLE IF NOT EXISTS name (cols..., PRIMARY KEY)] *)
Definition create_table_if_not_exists (name : string) (cols : list string)
    (pk : option string) (db : database) : database :=
  match find_table name db with
  | Some _ => db
  | None => db ++ [(name, mkTable cols pk [])]
  end.

(** [CREATE TABLE IF NOT EXISTS name (... INTEGER PRIMARY KEY AUTOINCREMENT
    ...)]: the first table with AUTOINCREMENT brings the bookkeeping table
    [sqlite_sequence] with it. *)
Definition create_autoincrement_if_not_exists (name : string) (cols : list string)
    (pk : option string) (db : database) : database :=
  match find_table name db with
  | Some _ => db
  | None =>
      let db' := db ++ [(name, mkTable cols pk [])] in
      match find_table "sqlite_sequence" db' with
      | Some _ => db'
      | None => db' ++ [("sqlite_sequence", mkTable ["name"; "seq"] None [])]
      end
  end.

(** The rest of a LIKE pattern after [%]: some suffix of the text matches. *)
Fixpoint like_any (rest : string → bool) (s : string) : bool :=
  rest s || match s with
            | EmptyString => false
            | String _ s' => like_any rest s'
            end.

(** [text LIKE pattern]: [%] stands for any text, [_] for any one
    character, and a letter for itself in either case. *)
Fixpoint like (pattern s : string) : bool :=
  match pattern with
  | EmptyString => bool_decide (s = EmptyString)
  | String c p' =>
      if bool_decide (c = "%"%char) then like_any (like p') s
      else
        match s with
        | EmptyString => false
        | String a s' =>
            (bool_decide (c = "_"%char) || bool_decide (lower_char c = lower_char a))
              && like p' s'
        end
  end.

(** [SELECT name FROM sqlite_master WHERE type='table' AND name LIKE pattern] *)
Definition tables_like (pattern : string) (db : database) : list string :=
  filter (λ n, like pattern n = true) db.*1.

(** [SELECT COUNT( * ) FROM name] *)
Definition count_rows (name : string) (db : database) : answer nat :=
  answer_bind (the_table name db) (λ t, Done (length (records t))).

(** [PRAGMA table_info(name)], second field of each row: the declared
    columns; no row at all for a table that does not exist. *)
Definition table_info (name : string) (db : database) : list string :=
  match find_table name db with
  | Some t => col_names t
  | None => []
  end.

(** [ALTER TABLE name ADD COLUMN col TEXT]: the column is put last, and
    every row reads NULL under it. *)
Definition add_column (name col : string) (db : database) : answer database :=
  answer_bind (the_table name db) (λ t,
    if existsb (same_name col) (col_names t) then Failed (duplicate_column col)
    else Done (put_table name
                 (mkTable (col_names t ++ [col]) (primary_key t)
                          ((λ r, (r.1, r.2 ++ [Null])) <$> records t)) db)).

(** The rowid a new row gets: one more than the largest in the table. *)
Definition next_rowid (t : table) : Z :=
  (1 + foldr Z.max 0 (fst <$> records t))%Z.

(** The positions of the columns an INSERT or UPDATE names. *)
Fixpoint the_columns (cols : list string) (t : table) : answer (list nat) :=
  match cols with
  | [] => Done []
  | c :: cols' =>
      answer_bind (the_column c t) (λ j,
      answer_bind (the_columns cols' t) (λ js, Done (j :: js)))
  end.

(** The values of a row after the assignments [position := value], taken
    in order. *)
Definition assign (sets : list (nat * value)) (vals : list value) : list value :=
  foldl (λ vals jv, <[jv.1 := jv.2]> vals) vals sets.

(** [INSERT INTO name (cols...) VALUES (?, ..., ?)] with the parameters
    [vals]: columns that are not named read NULL. *)
Definition insert_row (name : string) (cols : list string) (vals : list value)
    (db : database) : answer database :=
  answer_bind (the_table name db) (λ t,
  answer_bind (the_columns cols t) (λ js,
    let row := assign (zip js vals) (replicate (length (col_names t)) Null) in
    store_table name
      (mkTable (col_names t) (primary_key t) (records t ++ [(next_rowid t, row)])) db)).

(** [cur.executemany(insert, rows)]: row after row; the rows before one
    that fails stay inserted. *)
Fixpoint insert_rows (name : string) (cols : list string) (rows : list (list value))
    (db : database) : database * answer unit :=
  match rows with
  | [] => (db, Done ())
  | vals :: rows' =>
      match insert_row name cols vals db with
      | Done db' => insert_rows name cols rows' db'
      | Failed e => (db, Failed e)
      end
  end.

(** [SELECT col FROM name], one value per row. *)
Definition select_column (name col : string) (db : database) : answer (list value) :=
  answer_bind (the_table name db) (λ t,
  answer_bind (the_column col t) (λ j, Done (field j <$> records t))).

(** [SELECT rowid FROM name] *)
Definition select_rowids (name : string) (db : database) : answer (list Z) :=
  answer_bind (the_table name db) (λ t, Done (fst <$> records t)).

(** [UPDATE name SET col=? WHERE rowid=?] *)
Definition update_row (name col : string) (v : value) (rowid : Z) (db : database)
  : answer database :=
  answer_bind (the_table name db) (λ t,
  answer_bind (the_column col t) (λ j,
    store_table name
      (mkTable (col_names t) (primary_key t)
         ((λ r, if decide (r.1 = rowid) then (r.1, <[j := v]> r.2) else r)
            <$> records t)) db)).

(** [UPDATE name SET col1=v1, ..., coln=vn], every row. *)
Definition update_all (name : string) (sets : list (string * value)) (db : database)
  : answer database :=
  answer_bind (the_table name db) (λ t,
  answer_bind (the_columns sets.*1 t) (λ js,
    store_table name
      (mkTable (col_names t) (primary_key t)
         ((λ r, (r.1, assign (zip js sets.*2) r.2)) <$> records t)) db)).

(** [SELECT COUNT( * ) FROM name WHERE col = 'text'] *)
Definition count_where (name col text : string) (db : database) : answer nat :=
  answer_bind (the_table name db) (λ t,
  answer_bind (the_column col t) (λ j,
    Done (length (filter (λ r, field j r = Text text) (records t))))).

(** How many times each value occurs: a dict from the values that occur
    to their number of occurrences. *)
Definition tally (vs : list value) : gmap value nat :=
  foldr (λ v m, <[v := S (default 0 (m !! v))]> m) ∅ vs.

(** [dict(cur.execute("SELECT col, COUNT( * ) FROM name GROUP BY col"))]:
    each value of the column, NULL included, with the number of rows that
    hold it. *)
Definition group_counts (name col : string) (db : database)
  : answer (gmap value nat) :=
  answer_bind (the_table name db) (λ t,
  answer_bind (the_column col t) (λ j, Done (tally (field j <$> records t)))).

End Sqlite.

(* ===================================================================== *)
(** * metadata_init.py and metadata_enrich.py *)
(* ===================================================================== *)

(** What the two scripts share: the session (the database as the
    connection sees it, the number of calls made to the random generator
    and the clock, what was printed) and the sequencing of statements. *)
Module Meta.
Import Py Sqlite.

(** A dict of group counts and the summary [validate_table] returns. *)
Record summary := mkSummary {
  complete : nat;
  test_conditions : gmap value nat;
  impact_scores : gmap value nat
}.

(** What the scripts print. *)
Inductive note :=
| DiscoveringLogTables
| Found (tables : list string)
| EnsuringDimensionTables
| AddingMetadataColumns
| InitCompleted
| NoValues (dim_table target_col table : string)
| NoTestConditions
| Assigned (target_col table : string) (rows : nat)
| Enriching (tables : list string)
| Enriched (table : string)
| ValidationSummary
| TableSummary (table : string) (s : summary)
| EnrichmentComplete.

(** The generator and the clock, by what their [n]-th call returns:
    [pick n] is the number [random.choice] indexes with (modulo the length),
    [below_tenth n] is whether [random.random() < 0.1],
    [rounded n] is [round(random.uniform(0.80, 0.99), 3)] in thousandths, and
    [utcnow n] is [datetime.utcnow().isoformat()]. *)
Record oracle := mkOracle {
  pick : nat → nat;
  below_tenth : nat → bool;
  rounded : nat → Z;
  utcnow : nat → string
}.

Record session := mkSession {
  store : database;
  calls : nat;
  console : list note
}.

(** A step of a script: it may change the session, and returns or fails
    with what a statement failed with. *)
Definition Tx (A : Type) : Type := session → session * answer A.

Global Instance Tx_ret : MRet Tx := λ A a s, (s, Done a).
Global Instance Tx_bind : MBind Tx := λ A B f m s,
  match m s with
  | (s', Done a) => f a s'
  | (s', Failed e) => (s', Failed e)
  end.

(** A statement that reads. *)
Definition ask {A} (q : database → answer A) : Tx A := λ s, (s, q (store s)).

(** A statement that writes; when it fails nothing is written. *)
Definition run (q : database → answer database) : Tx unit :=
  λ s,
    match q (store s) with
    | Done db => (mkSession db (calls s) (console s), Done ())
    | Failed e => (s, Failed e)
    end.

(** A statement that cannot fail. *)
Definition execute (q : database → database) : Tx unit :=
  λ s, (mkSession (q (store s)) (calls s) (console s), Done ()).

(** [cur.executemany("INSERT INTO name (cols) VALUES (...)", rows)] *)
Definition executemany (name : string) (cols : list string) (rows : list (list value))
  : Tx unit :=
  λ s,
    let '(db, r) := insert_rows name cols rows (store s) in
    (mkSession db (calls s) (console s), r).

(** [conn.commit()]: the connection sees its own writes before and after. *)
Definition commit : Tx unit := mret ().

Definition print (n : note) : Tx unit :=
  λ s, (mkSession (store s) (calls s) (console s ++ [n]), Done ()).

(** One call to the generator or the clock. *)
Definition draw {A} (f : nat → A) : Tx A :=
  λ s, (mkSession (store s) (S (calls s)) (console s), Done (f (calls s))).

(** [for x in xs: body(x)] *)
Fixpoint for_each {A} (xs : list A) (body : A → Tx unit) : Tx unit :=
  match xs with
  | [] => mret ()
  | x :: xs' => _ ← body x; for_each xs' body
  end.

(** [[f(x) for x in xs]] *)
Fixpoint collect {A B} (xs : list A) (f : A → Tx B) : Tx (list B) :=
  match xs with
  | [] => mret []
  | x :: xs' => y ← f x; ys ← collect xs' f; mret (y :: ys)
  end.

(** [f"{n:0wd}"] for a natural number. *)
Definition zero_padded (w n : nat) : string :=
  let digits := pretty n in
  String.concat "" (replicate (w - String.length digits) "0") +:+ digits.

End Meta.

Module MetaInit.
Import Py Sqlite Meta.

Section script.
Variable gen : oracle.

(** [random.choice(seq)] for a sequence that is not empty. *)
Definition random_choice (first : string) (others : list string) : Tx string :=
  n ← draw (pick gen);
  mret (nth (n mod S (length others)) (first :: others) first).

Definition get_log_tables : Tx (list string) :=
  ask (λ db, Done (tables_like "logs_%" db)).

(* dimension table population *)

Definition ensure_dim_tables : Tx unit :=
  _ ← execute (create_table_if_not_exists "dim_chip"
         ["chip_id"; "origin"; "launch_date"; "expected_yield"] (Some "chip_id"));
  _ ← execute (create_table_if_not_exists "dim_design_block"
         ["design_block"] (Some "design_block"));
  _ ← execute (create_table_if_not_exists "dim_team"
         ["team"] (Some "team"));
  _ ← execute (create_table_if_not_exists "dim_test_condition"
         ["test_id"; "condition_txt"] (Some "test_id"));
  _ ← execute (create_table_if_not_exists "dim_simulation"
         ["simulation_id"; "start_time"] (Some "simulation_id"));
  _ ← execute (create_table_if_not_exists "dim_business"
         ["impact_score"] (Some "impact_score"));
  _ ← execute (create_autoincrement_if_not_exists "metadata_audit"
         ["id"; "table_name"; "row_rowid"; "column_name"; "old_value"; "new_value";
          "changed_at"; "changed_by"; "comment"] (Some "id"));
  commit.

Definition prefixes : list string := ["Chip_A"; "Chip_B"; "Chip_C"; "Chip_D"].

(** One turn of the loop that builds the rows of [dim_chip]. *)
Definition chip_row (i : nat) : Tx (list value) :=
  let pid := nth (i mod length prefixes) prefixes "" +:+ pretty (i + 1) in
  origin ← random_choice "Fab_Taiwan" ["Fab_USA"; "Fab_Korea"; "Fab_China"];
  low ← draw (below_tenth gen);
  let launch_date := if (low : bool) then Null else Text "2025-10-01" in
  low ← draw (below_tenth gen);
  expected_yield ← (if (low : bool) then mret Null
                    else y ← draw (rounded gen); mret (Real y) : Tx value);
  mret [Text pid; Text origin; launch_date; expected_yield].

Definition blocks : list (list value) :=
  [[Text "Cache"]; [Text "ALU"]; [Text "I/O"]; [Text "MemoryCtrl"];
   [Text "Interconnect"]; [Text "PHY"]; [Text "PowerMgmt"]].

Definition teams : list (list value) :=
  [[Text "RTL_Team"]; [Text "Verification_Team"]; [Text "DFT_Team"];
   [Text "Validation_Team"]; [Text "Software_Team"]].

Definition test_condition_row (i : nat) : Tx (list value) :=
  volt ← random_choice "0.9V" ["1.0V"; "1.1V"; "1.2V"];
  temp ← random_choice "0C" ["25C"; "85C"; "125C"];
  mret [Text ("TC" +:+ zero_padded 3 (i + 1));
        Text ("Voltage=" +:+ volt +:+ "; Temp=" +:+ temp +:+ ";")].

Definition sims : list (list value) :=
  (λ i, [Text ("SIM" +:+ zero_padded 4 (i + 1)); Text "2025-01-01T00:00:00"])
    <$> seq 0 60.

Definition populate_dim_tables_if_empty : Tx unit :=
  (* populating dim_chips *)
  n ← ask (count_rows "dim_chip");
  if n =? 0 then
    rows ← collect (seq 0 12) chip_row;
    _ ← executemany "dim_chip" ["chip_id"; "origin"; "launch_date"; "expected_yield"] rows;
    (* populating dim_design_block *)
    n ← ask (count_rows "dim_design_block");
    _ ← (if n =? 0 then executemany "dim_design_block" ["design_block"] blocks
         else mret ());
    (* populating dim_team *)
    n ← ask (count_rows "dim_team");
    _ ← (if n =? 0 then executemany "dim_team" ["team"] teams else mret ());
    (* populating dim_test_condition *)
    n ← ask (count_rows "dim_test_condition");
    _ ← (if n =? 0 then
           tc ← collect (seq 0 12) test_condition_row;
           executemany "dim_test_condition" ["test_id"; "condition_txt"] tc
         else mret ());
    (* populating dim_simulation *)
    n ← ask (count_rows "dim_simulation");
    _ ← (if n =? 0 then executemany "dim_simulation" ["simulation_id"; "start_time"] sims
         else mret ());
    (* populating dim_business *)
    n ← ask (count_rows "dim_business");
    _ ← (if n =? 0 then
           executemany "dim_business" ["impact_score"]
             [[Text "Low"]; [Text "Medium"]; [Text "High"]]
         else mret ());
    commit
  else mret ().

(* helper functions *)

Definition column_exists (table column : string) : Tx bool :=
  cols ← ask (λ db, Done (table_info table db));
  mret (bool_decide (column ∈ cols)).

Definition metadata_columns : list (string * string) :=
  [("chip_id", "TEXT"); ("design_block", "TEXT"); ("team", "TEXT");
   ("simulation_id", "TEXT"); ("test_condition", "TEXT"); ("impact_score", "TEXT");
   ("metadata_source", "TEXT"); ("metadata_version", "TEXT");
   ("metadata_assigned_at", "TEXT"); ("metadata_assigned_by", "TEXT");
   ("enrichment_status", "TEXT")].

Definition add_metadata_columns (table : string) : Tx unit :=
  _ ← for_each metadata_columns (λ col,
        present ← column_exists table col.1;
        if negb present then run (add_column table col.1) else mret ());
  commit.

(* main orchestration *)

Definition main : Tx unit :=
  _ ← print DiscoveringLogTables;
  logs ← get_log_tables;
  _ ← print (Found logs);
  _ ← print EnsuringDimensionTables;
  _ ← ensure_dim_tables;
  _ ← populate_dim_tables_if_empty;
  _ ← print AddingMetadataColumns;
  _ ← for_each logs add_metadata_columns;
  print InitCompleted.

End script.

End MetaInit.

Module MetaEnrich.
Import Py Sqlite Meta.

Section script.
Variable gen : oracle.

(* Helpers *)

Definition get_log_tables : Tx (list string) :=
  ask (λ db, Done (tables_like "logs_%" db)).

Definition table_has_column (table column : string) : Tx bool :=
  cols ← ask (λ db, Done (table_info table db));
  mret (bool_decide (column ∈ cols)).

(** [random.choice(values)] for a list of values that is not empty. *)
Definition random_choice (values : list value) : Tx value :=
  n ← draw (pick gen);
  mret (nth (n mod length values) values Null).

(* Assignment Functions *)

Definition assign_from_dim_rowwise (table dim_table dim_col target_col : string)
  : Tx unit :=
  values ← ask (select_column dim_table dim_col);
  match values with
  | [] => print (NoValues dim_table target_col table)
  | _ =>
      rowids ← ask (select_rowids table);
      _ ← for_each rowids (λ rid,
            val ← random_choice values;
            run (update_row table target_col val rid));
      _ ← commit;
      print (Assigned target_col table (length rowids))
  end.

Definition assign_test_condition_random (table : string) : Tx unit :=
  test_conditions ← ask (select_column "dim_test_condition" "test_id");
  match test_conditions with
  | [] => print NoTestConditions
  | _ =>
      rowids ← ask (select_rowids table);
      _ ← for_each rowids (λ rid,
            tc ← random_choice test_conditions;
            run (update_row table "test_condition" tc rid));
      _ ← commit;
      print (Assigned "test_condition" table (length rowids))
  end.

Definition assign_enrichment_metadata (table : string) : Tx unit :=
  now ← draw (utcnow gen);
  _ ← run (update_all table
             [("enrichment_status", Text "complete");
              ("metadata_assigned_at", Text now);
              ("metadata_assigned_by", Text "metadata_enrich.py");
              ("metadata_version", Text "v1.0")]);
  commit.

(* Validation *)

Definition validate_table (table : string) : Tx summary :=
  complete ← ask (count_where table "enrichment_status" "complete");
  tc ← ask (group_counts table "test_condition");
  impacts ← ask (group_counts table "impact_score");
  mret (mkSummary complete tc impacts).

(* Main *)

Definition main : Tx unit :=
  log_tables ← get_log_tables;
  _ ← print (Enriching log_tables);
  _ ← for_each log_tables (λ table,
        (* assign basic dimensions *)
        _ ← assign_from_dim_rowwise table "dim_chip" "chip_id" "chip_id";
        _ ← assign_from_dim_rowwise table "dim_team" "team" "team";
        _ ← assign_from_dim_rowwise table "dim_design_block" "design_block" "design_block";
        _ ← assign_from_dim_rowwise table "dim_simulation" "simulation_id" "simulation_id";
        _ ← assign_from_dim_rowwise table "dim_business" "impact_score" "impact_score";
        (* assign test_condition separately *)
        _ ← assign_test_condition_random table;
        (* mark enrichment done *)
        _ ← assign_enrichment_metadata table;
        print (Enriched table));
  (* validation summary *)
  _ ← print ValidationSummary;
  _ ← for_each log_tables (λ table,
        summary ← validate_table table;
        print (TableSummary table summary));
  print EnrichmentComplete.

End script.

End MetaEnrich.


(** Vocabulary for what the metadata scripts do to the database. *)
Module MetaSpec.
Import Py Sqlite Meta.

(** The tables [ensure_dim_tables] asks for. *)
Definition ensured : list string :=
  ["dim_chip"; "dim_design_block"; "dim_team"; "dim_test_condition";
   "dim_simulation"; "dim_business"; "metadata_audit"].

(** [db'] is [db] followed by new tables without rows, named from [names]. *)
Definition extends (names : list string) (db db' : database) : Prop :=
  ∃ new, db' = db ++ new
         ∧ Forall (λ nt : string * table, nt.1 ∈ names ∧ records nt.2 = []) new.

(** The session with another database. *)
Definition with_store (db : database) (s : session) : session :=
  mkSession db (calls s) (console s).

(** The session after [k] more calls to the generator. *)
Definition after_calls (k : nat) (s : session) : session :=
  mkSession (store s) (calls s + k) (console s).

(** A table with the columns [new] added at the end, NULL in every row. *)
Definition widen (new : list string) (t : table) : table :=
  mkTable (col_names t ++ new) (primary_key t)
          ((λ r, (r.1, r.2 ++ replicate (length new) Null)) <$> records t).

(** The metadata columns a table does not have under their exact name. *)
Definition missing (t : table) : list string :=
  filter (λ c, c ∉ col_names t) MetaInit.metadata_columns.*1.

(** A column of the table has this name up to letter case. *)
Definition clashes (t : table) (c : string) : Prop :=
  existsb (same_name c) (col_names t) = true.

Global Instance clashes_dec t c : Decision (clashes t c).
Proof. unfold clashes. apply _. Defined.

(** The value [random.choice(values)] returns at the generator's [n]-th call. *)
Definition choice (gen : oracle) (values : list value) (n : nat) : value :=
  nth (pick gen n mod length values) values Null.

(** A row with the value at position [j] replaced. *)
Definition set_field (j : nat) (v : value) (r : Z * list value) : Z * list value :=
  (r.1, <[j := v]> r.2).

(** The rows after one [UPDATE ... WHERE rowid=?] per rowid of [rids], the
    generator being at its [c]-th call. *)
Fixpoint assigned (gen : oracle) (values : list value) (j : nat) (c : nat)
    (rids : list Z) (recs : list (Z * list value)) : list (Z * list value) :=
  match rids with
  | [] => recs
  | rid :: rids' =>
      assigned gen values j (S c) rids'
        ((λ r, if decide (r.1 = rid) then set_field j (choice gen values c) r else r)
           <$> recs)
  end.

(** The rows have the same rowids and widths and differ at most at
    position [j]. *)
Definition same_but (j : nat) (recs recs' : list (Z * list value)) : Prop :=
  Forall2 (λ r r', r'.1 = r.1 ∧ length r'.2 = length r.2
                   ∧ ∀ k, k ≠ j → nth k r'.2 Null = nth k r.2 Null) recs recs'.

(** The table after [INSERT]s of the rows, one after the other, each row
    giving a value for every column. *)
Fixpoint appended (t : table) (rows : list (list value)) : table :=
  match rows with
  | [] => t
  | r :: rows' =>
      appended (mkTable (col_names t) (primary_key t)
                        (records t ++ [(next_rowid t, r)])) rows'
  end.

(** The dimension tables [populate_dim_tables_if_empty] fills. *)
Definition dimensions : list string :=
  ["dim_chip"; "dim_design_block"; "dim_team"; "dim_test_condition";
   "dim_simulation"; "dim_business"].

(** The key of the [i]-th chip. *)
Definition chip_id (i : nat) : string :=
  nth (i mod length MetaInit.prefixes) MetaInit.prefixes "" +:+ pretty (i + 1).

(** The key of the [i]-th test condition. *)
Definition test_id (i : nat) : string := "TC" +:+ zero_padded 3 (i + 1).

(** The sum of the counts of a dict of counts. *)
Definition total (m : gmap value nat) : nat :=
  map_fold (λ _ n acc, n + acc) 0 m.

(** The number of values of a list equal to [v]. *)
Definition occurrences (v : value) (vs : list value) : nat :=
  length (filter (λ u, u = v) vs).

End MetaSpec.
(* ===================================================================== *)
(** * Further sample inputs *)
(* ===================================================================== *)

Module MoreSamples.
Import Py Re Pd Logs Dash Spec Samples More.

(** A fixed-width log with an empty line between two records. *)
Definition gapped_fs : FS := {|
  walk dir := if decide (dir = "raw/bgl") then [("raw/bgl", ["BGL.log"])] else [];
  read path :=
    if decide (path = "raw/bgl/BGL.log") then Some [bgl_line; nl; bgl_line] else None
|}.

(** A fixed-width log that ends with an empty line, and the structured
    pass over it: one row, for its one record. *)
Definition trailing_fs : FS := {|
  walk dir := if decide (dir = "raw/bgl") then [("raw/bgl", ["BGL.log"])] else [];
  read path := if decide (path = "raw/bgl/BGL.log") then Some [bgl_line; nl] else None
|}.

Definition keeps_one : string → result (list (list cell)) := λ _, Ok [nine_fields].

End MoreSamples.

Import MoreSamples.

(* ===================================================================== *)
(** * Strings *)
(* ===================================================================== *)

Lemma count_char_app c s1 s2 :
  count_char c (s1 +:+ s2) = count_char c s1 + count_char c s2.
Proof.
  induction s1 as [|a s1 IH]; [done|].
  change (String a s1 +:+ s2) with (String a (s1 +:+ s2)).
  cbn [count_char]. rewrite IH. lia.
Qed.

Lemma str_app_assoc (s1 s2 s3 : string) : (s1 +:+ s2) +:+ s3 = s1 +:+ (s2 +:+ s3).
Proof.
  induction s1 as [|a s1 IH]; [done|].
  change (String a s1 +:+ s2) with (String a (s1 +:+ s2)).
  change (String a (s1 +:+ s2) +:+ s3) with (String a ((s1 +:+ s2) +:+ s3)).
  by rewrite IH.
Qed.

Lemma placeholders_S n : placeholders (S (S n)) = "?" +:+ "," +:+ placeholders (S n).
Proof. reflexivity. Qed.

Lemma count_placeholders n : count_char "?" (placeholders n) = n.
Proof.
  destruct n as [|n]; [done|].
  induction n as [|n IH]; [done|].
  rewrite placeholders_S, !count_char_app, IH. reflexivity.
Qed.

(* ===================================================================== *)
(** * The filter query builder *)
(* ===================================================================== *)

Section where_clause.

Lemma clauses_of_cons col vals filters :
  clauses_of ((col, vals) :: filters) =
  (if bool_decide (vals ≠ []) then [clause col (length vals)] else [])
    ++ clauses_of filters.
Proof.
  unfold clauses_of, shape. rewrite fmap_cons, filter_cons. cbn [fst snd].
  destruct vals as [|v vals]; cbn [length].
  - rewrite decide_False by (intros H; by apply H).
    rewrite bool_decide_eq_false_2 by (intros H; by apply H). done.
  - rewrite decide_True by done. rewrite bool_decide_eq_true_2 by done. done.
Qed.

Lemma foldl_add_filter filters clauses params :
  foldl add_filter (clauses, params) filters =
  (clauses ++ clauses_of filters, params ++ bound_values filters).
Proof.
  revert clauses params.
  induction filters as [|[col vals] filters IH]; intros clauses params.
  - cbn. by rewrite !app_nil_r.
  - cbn [foldl add_filter]. rewrite clauses_of_cons.
    unfold bound_values. rewrite fmap_cons, concat_cons. cbn [snd].
    destruct vals as [|v vals].
    + rewrite bool_decide_eq_false_2 by (intros H; by apply H).
      rewrite IH. done.
    + rewrite bool_decide_eq_true_2 by done.
      rewrite IH. by rewrite <- !app_assoc.
Qed.

Lemma build_where_clause_eq filters :
  build_where_clause filters = (where_text (shape filters), bound_values filters).
Proof.
  unfold build_where_clause. rewrite foldl_add_filter. cbn [app].
  unfold where_text. fold (clauses_of filters).
  destruct (clauses_of filters) as [|c cs]; [done|].
  by rewrite bool_decide_eq_true_2.
Qed.

End where_clause.

(** C1.  [build_where_clause] returns, for any filter dict, the predicate
    text determined by the columns and the number of values selected for
    each (one [LOWER(col) IN (?,...,?)] clause per column with values, with
    as many [?] as values, the clauses joined by AND under a single WHERE,
    and no text at all when no column has values), together with every
    selected value lower-cased as a bound parameter, in order; a column with
    no values adds neither clause nor parameter, and the filter
    [{"team": ["RTL_TEAM"]}] binds the single parameter ["rtl_team"]. *)
Theorem build_where_clause_parameterized :
  (∀ filters : FilterSpec,
     build_where_clause filters = (where_text (shape filters), bound_values filters))
  ∧ (∀ col n, clause col n = "LOWER(" +:+ col +:+ ") IN (" +:+ placeholders n +:+ ")")
  ∧ (∀ n, count_char "?" (placeholders n) = n)
  ∧ (∀ (filters : FilterSpec) col,
       build_where_clause ((col, []) :: filters) = build_where_clause filters)
  ∧ (∀ (filters : FilterSpec) col,
       build_where_clause (filters ++ [(col, [])]) = build_where_clause filters)
  ∧ (∀ col1 v1 vals1 col2 v2 vals2,
       (build_where_clause [(col1, v1 :: vals1); (col2, v2 :: vals2)]).1 =
       " WHERE " +:+ clause col1 (S (length vals1)) +:+ " AND "
         +:+ clause col2 (S (length vals2)))
  ∧ build_where_clause [] = ("", [])
  ∧ build_where_clause [("team", ["RTL_TEAM"])] = (" WHERE LOWER(team) IN (?)", ["rtl_team"]).
Proof.
  split_and!.
  - apply build_where_clause_eq.
  - reflexivity.
  - apply count_placeholders.
  - intros filters col. by rewrite !build_where_clause_eq.
  - intros filters col. rewrite !build_where_clause_eq.
    unfold where_text, bound_values, shape.
    rewrite !fmap_app, filter_app, concat_app.
    change (filter _ ((λ it : string * list string, (it.1, length it.2)) <$> [(col, [])]))
      with (@nil (string * nat)).
    by rewrite !app_nil_r.
  - intros. reflexivity.
  - reflexivity.
  - reflexivity.
Qed.

Lemma load_filtered_data_eq engine table filters limit conn :
  load_filtered_data engine table filters limit conn =
  read_sql_query engine (statement_of table filters limit).1
                        (statement_of table filters limit).2 conn.
Proof.
  unfold load_filtered_data, statement_of. by rewrite build_where_clause_eq.
Qed.

Lemma limit_clause_int n :
  limit_clause (LimitInt n) = if (n =? 0)%Z then "" else "LIMIT " +:+ pretty n.
Proof. unfold limit_clause; cbn. by destruct (n =? 0)%Z. Qed.

Lemma limit_clause_never_zero limit : limit_clause limit ≠ "LIMIT 0".
Proof.
  destruct limit as [|n]; [done|].
  rewrite limit_clause_int. destruct (n =? 0)%Z eqn:Hn; [done|].
  intros H. apply Z.eqb_neq in Hn. apply Hn.
  apply (inj (pretty (A := Z))). apply (inj (String.app "LIMIT ")). exact H.
Qed.

(** C9.  The row bound is emitted only for a truthy [limit]: with the
    default the query text ends in [LIMIT 500000;], with [limit=0] or
    [limit=None] it has no LIMIT clause at all, any other integer is
    printed as given (no clamping), and no value of [limit] yields
    [LIMIT 0]. *)
Theorem limit_clause_only_when_truthy :
  (∀ table (filters : FilterSpec),
     (statement_of table filters default_limit).1 =
     "SELECT * FROM " +:+ table +:+ " " +:+ where_text (shape filters) +:+ " LIMIT 500000;")
  ∧ (∀ table (filters : FilterSpec),
       (statement_of table filters (LimitInt 0)).1 =
       "SELECT * FROM " +:+ table +:+ " " +:+ where_text (shape filters) +:+ " ;")
  ∧ (∀ table (filters : FilterSpec),
       (statement_of table filters LimitNone).1 =
       "SELECT * FROM " +:+ table +:+ " " +:+ where_text (shape filters) +:+ " ;")
  ∧ (∀ engine table (filters : FilterSpec) limit conn,
       load_filtered_data engine table filters limit conn =
       read_sql_query engine (statement_of table filters limit).1
                             (statement_of table filters limit).2 conn)
  ∧ (∀ n, limit_clause (LimitInt n) = if (n =? 0)%Z then "" else "LIMIT " +:+ pretty n)
  ∧ (∀ limit, limit_clause limit ≠ "LIMIT 0").
Proof.
  split_and!.
  - reflexivity.
  - reflexivity.
  - reflexivity.
  - apply load_filtered_data_eq.
  - apply limit_clause_int.
  - apply limit_clause_never_zero.
Qed.

(** C3, as stated, fails: a request naming the column [nope], which the
    table lacks, is built and executed; nothing fails before the store. *)
Lemma unknown_column_reaches_store :
  absent_column one_table "logs_mac" [("nope", ["x"])]
  ∧ ¬ fails_fast rejecting_engine one_table "logs_mac" [("nope", ["x"])] default_limit
  ∧ executed (load_filtered_data rejecting_engine "logs_mac" [("nope", ["x"])]
                default_limit one_table).1
    = [("SELECT * FROM logs_mac  WHERE LOWER(nope) IN (?) LIMIT 500000;", Some ["x"])].
Proof.
  split_and!.
  - exists (mkDF 1 [("LineId", [CInt 1]); ("team", [CStr "rtl_team"])]), "nope".
    split_and!.
    + reflexivity.
    + by apply (bool_decide_unpack _).
    + by apply (bool_decide_unpack _).
  - intros [e He]. discriminate He.
  - reflexivity.
Qed.

(** C3, amended.  [load_filtered_data] performs no validation of column
    names: for every request it builds the statement from the filter and
    executes it, and its outcome is the engine's answer to that statement;
    a column with at least one value is written into the text as given. *)
Theorem filter_columns_unchecked :
  (∀ engine table (filters : FilterSpec) limit conn,
     load_filtered_data engine table filters limit conn =
     (mkConn (tables conn) (executed conn ++ [statement_of table filters limit]),
      engine (tables conn) (statement_of table filters limit)))
  ∧ (∀ table col v vals limit,
       (statement_of table [(col, v :: vals)] limit).1 =
       "SELECT * FROM " +:+ table +:+ "  WHERE LOWER(" +:+ col +:+ ") IN ("
         +:+ placeholders (S (length vals)) +:+ ") " +:+ limit_clause limit +:+ ";").
Proof.
  split.
  - intros. rewrite load_filtered_data_eq. unfold read_sql_query.
    by destruct (statement_of table filters limit).
  - intros. unfold statement_of, select_query, where_text, shape. cbn [fst].
    rewrite fmap_cons, filter_cons, decide_True by (cbn; lia).
    cbn [fmap list_fmap filter list_filter fst snd length join clause].
    unfold clause. cbn [fst snd].
    change ("SELECT * FROM " +:+ table +:+ " " +:+
              (" WHERE " +:+ ("LOWER(" +:+ col +:+ ") IN (" +:+ placeholders (S (length vals)) +:+ ")"))
              +:+ " " +:+ limit_clause limit +:+ ";" = 
            "SELECT * FROM " +:+ table +:+ "  WHERE LOWER(" +:+ col +:+ ") IN ("
              +:+ placeholders (S (length vals)) +:+ ") " +:+ limit_clause limit +:+ ";").
    rewrite !str_app_assoc. reflexivity.
Qed.

(* ===================================================================== *)
(** * Frames *)
(* ===================================================================== *)

Lemma length_range lo hi : length (range lo hi) = hi - lo.
Proof. unfold range. by rewrite length_fmap, length_seq. Qed.

Lemma assoc_Some_names {A} k (l : list (string * A)) :
  k ∈ l.*1 ↔ is_Some (assoc k l).
Proof.
  induction l as [|[k' v] l IH]; cbn.
  - split; [by intros ?%elem_of_nil | by intros [? ?]].
  - destruct (decide (k' = k)) as [->|Hne].
    + split; [eauto | intros _; by left].
    + rewrite elem_of_cons, IH. split; [|by right].
      intros [Heq|H]; [by destruct Hne | done].
Qed.

Lemma assoc_None_names {A} k (l : list (string * A)) :
  k ∉ l.*1 ↔ assoc k l = None.
Proof. rewrite assoc_Some_names, eq_None_not_Some. done. Qed.

Lemma assoc_set_column k v cols : assoc k (set_column k v cols) = Some v.
Proof.
  induction cols as [|[k' v'] cols IH]; cbn.
  - by rewrite decide_True.
  - destruct (decide (k' = k)) as [->|Hne]; cbn.
    + by rewrite decide_True.
    + by rewrite decide_False.
Qed.

Lemma assoc_set_column_ne k k' v cols :
  k ≠ k' → assoc k' (set_column k v cols) = assoc k' cols.
Proof.
  intros Hne. induction cols as [|[k0 v0] cols IH]; cbn.
  - by rewrite decide_False.
  - destruct (decide (k0 = k)) as [->|Hne0]; cbn.
    + by rewrite !decide_False.
    + destruct (decide (k0 = k')); [done | apply IH].
Qed.

Lemma names_set_column k v cols :
  (set_column k v cols).*1 = if bool_decide (k ∈ cols.*1) then cols.*1 else cols.*1 ++ [k].
Proof.
  induction cols as [|[k' v'] cols IH]; cbn.
  - done.
  - destruct (decide (k' = k)) as [->|Hne]; cbn.
    + rewrite bool_decide_eq_true_2 by (by left). done.
    + rewrite IH. destruct (bool_decide (k ∈ cols.*1)) eqn:Hin.
      * apply bool_decide_eq_true_1 in Hin.
        rewrite bool_decide_eq_true_2 by (by right). done.
      * apply bool_decide_eq_false_1 in Hin.
        rewrite bool_decide_eq_false_2; [done|].
        intros [?|?]%elem_of_cons; congruence.
Qed.

(** Numbering the rows of a frame that has no [LineId] column yet. *)
Lemma insert_LineId (d : DataFrame) :
  "LineId" ∉ names d →
  insert 0 "LineId" (range 1 (len d + 1)) d =
  Ok (mkDF (index_len d) (("LineId", range 1 (index_len d + 1)) :: columns d)).
Proof.
  intros Hno. unfold insert. rewrite bool_decide_eq_false_2 by done.
  unfold sanitize_column, ensure_valid_index, len.
  rewrite length_range.
  replace (index_len d + 1 - 1) with (index_len d) by lia.
  destruct (index_len d) as [|n] eqn:Hn; cbn -[range];
    rewrite Hn; cbn -[range]; rewrite ?Nat.eqb_refl; cbn -[range];
    by rewrite Hn.
Qed.

(* ===================================================================== *)
(** * The schema normaliser *)
(* ===================================================================== *)

Section normaliser.

Lemma getitem_one k (d : DataFrame) v :
  column k d = Some v → getitem_cols [k] d = Ok (mkDF (index_len d) [(k, v)]).
Proof. intros Hk. unfold getitem_cols. cbn. by rewrite Hk. Qed.

Lemma getitem_one_missing k (d : DataFrame) :
  column k d = None → getitem_cols [k] d = Raise KeyError.
Proof. intros Hk. unfold getitem_cols. cbn. by rewrite Hk. Qed.

Lemma get_last (h : heap) (x : DataFrame) : (h ++ [x]) !!! length h = x.
Proof. by apply list_lookup_total_middle. Qed.

Lemma put_last (h : heap) (x y : DataFrame) : <[length h := y]> (h ++ [x]) = h ++ [y].
Proof. rewrite insert_app_r_alt by lia. by rewrite Nat.sub_diag. Qed.

(** From the one-column selection to the result of [standardize]. *)
Lemma standardize_tail (h : heap) n k v source :
  (d ← get (length h);
   d ← lift (insert 0 "LineId" (range 1 (len d + 1)) d);
   _ ← put (length h) d;
   d ← get (length h);
   _ ← put (length h) (setitem_scalar "EventId" CNone d);
   d ← get (length h);
   _ ← put (length h) (setitem_scalar "EventTemplate" CNone d);
   d ← get (length h);
   _ ← put (length h) (setitem_scalar "Source" (CStr source) d);
   mret (length h)) (h ++ [rename k "Content" (mkDF n [(k, v)])])
  = (h ++ [normalized n v source], Ok (length h)).
Proof.
  unfold mbind, St_bind, mret, St_ret, get, put, lift.
  rewrite get_last.
  unfold rename. cbn [columns index_len fmap list_fmap fst snd].
  rewrite decide_True by done.
  rewrite insert_LineId by (by apply (bool_decide_unpack _)).
  cbn [index_len columns].
  repeat first [rewrite put_last | rewrite get_last].
  reflexivity.
Qed.


Lemma agg_join_rows (d : DataFrame) :
  0 < index_len d → agg_join d = AggSeries (join_rows d).
Proof. unfold agg_join. destruct (index_len d); [lia | done]. Qed.



(** The designated field is missing and the joined column is stored in
    the caller's frame: the result is built from it if the field is
    [Content], and the selection raises otherwise. *)
Lemma standardize_absent_stored (h : heap) df d0 content_col source values :
  h !! df = Some d0 →
  content_col ∉ names d0 →
  setitem_agg "Content" (agg_join d0) d0 = Ok (setitem_series "Content" values d0) →
  standardize df content_col source h =
  if decide (content_col = "Content")
  then (<[df := setitem_series "Content" values d0]> h
          ++ [normalized (index_len d0) values source], Ok (length h))
  else (<[df := setitem_series "Content" values d0]> h, Raise KeyError).
Proof.
  intros Hdf Hno Hset. unfold standardize.
  unfold mbind at 1, St_bind at 1, get at 1.
  rewrite (list_lookup_total_correct _ _ _ Hdf).
  rewrite bool_decide_eq_true_2 by done.
  unfold mbind at 1, St_bind at 1. unfold mbind at 1, St_bind at 1, lift at 1.
  rewrite Hset.
  unfold mbind at 1, St_bind at 1, put at 1.
  unfold mret at 1, St_ret at 1.
  unfold mbind at 1, St_bind at 1, get at 1.
  assert (Hlen : df < length h) by (by eapply lookup_lt_Some).
  rewrite list_lookup_total_insert_eq by done.
  unfold mbind at 1, St_bind at 1, lift at 1.
  case_decide as Hcc.
  - subst content_col.
    rewrite (getitem_one "Content" _ values); last first.
    { unfold column, setitem_series. cbn. apply assoc_set_column. }
    unfold mbind at 1, St_bind at 1, new at 1.
    rewrite length_insert.
    pose proof (standardize_tail (<[df := setitem_series "Content" values d0]> h)
                  (index_len d0) "Content" values source) as Ht.
    rewrite length_insert in Ht. exact Ht.
  - rewrite getitem_one_missing; [done|].
    unfold column, setitem_series. cbn.
    rewrite assoc_set_column_ne by done.
    by apply assoc_None_names.
Qed.

(** The default field [Content] is missing from a frame with rows: the
    caller's frame gets the joined column, and the result is built from
    it. *)
Lemma standardize_absent_default (h : heap) df d0 source :
  h !! df = Some d0 →
  "Content" ∉ names d0 →
  0 < index_len d0 →
  standardize df "Content" source h =
  (<[df := with_joined_content d0]> h ++ [normalized (index_len d0) (join_rows d0) source],
   Ok (length h)).
Proof.
  intros Hdf Hno Hpos.
  rewrite (standardize_absent_stored h df d0 "Content" source (join_rows d0)); try done.
  by rewrite agg_join_rows.
Qed.

(** Another designated field is missing from a frame with rows: the
    caller's frame gets the joined column all the same, then the
    selection raises. *)
Lemma standardize_absent_other (h : heap) df d0 content_col source :
  h !! df = Some d0 →
  content_col ∉ names d0 →
  content_col ≠ "Content" →
  0 < index_len d0 →
  standardize df content_col source h =
  (<[df := with_joined_content d0]> h, Raise KeyError).
Proof.
  intros Hdf Hno Hne Hpos.
  rewrite (standardize_absent_stored h df d0 content_col source (join_rows d0)); try done.
  - by rewrite decide_False.
  - by rewrite agg_join_rows.
Qed.

End normaliser.

(* ===================================================================== *)
(** * The regex parsers *)
(* ===================================================================== *)

Section captures.

Lemma star_slots (Q : captures → Prop) step g k :
  (∀ pos s caps k' c,
     (∀ pos' s' caps' c', length caps' = length caps →
                          k' pos' s' caps' = Some c' → Q c') →
     step pos s caps k' = Some c → Q c) →
  ∀ n pos s caps c,
    (∀ pos' s' caps' c', length caps' = length caps →
                         k pos' s' caps' = Some c' → Q c') →
    star_loop step g k n pos s caps = Some c → Q c.
Proof.
  intros Hstep n. induction n as [|n IHn]; intros pos s caps c Hk Hm; cbn in Hm.
  - eauto.
  - assert (Hagain : ∀ c',
      step pos s caps
        (λ pos' s' caps',
           if pos <? pos' then star_loop step g k n pos' s' caps' else None)
      = Some c' → Q c').
    { intros c' Hc'. eapply Hstep; [|exact Hc']. intros pos' s' caps' c'' Hlen Hm'.
      cbn beta in Hm'. destruct (pos <? pos'); [|done].
      eapply IHn; [|exact Hm']. intros ???? Hlen' ?. eapply Hk; [|done]. congruence. }
    destruct g.
    + destruct (step pos s caps _) as [c0|] eqn:Hx.
      * simplify_eq. by apply Hagain.
      * eauto.
    + destruct (k pos s caps) as [c0|] eqn:Hx.
      * simplify_eq. eauto.
      * by apply Hagain.
Qed.

(** Matching never changes the number of capture slots. *)
Lemma rmatch_slots (Q : captures → Prop) ic r :
  ∀ pos s caps k c,
    (∀ pos' s' caps' c', length caps' = length caps →
                         k pos' s' caps' = Some c' → Q c') →
    rmatch ic r pos s caps k = Some c → Q c.
Proof.
  induction r as [|a|p|r1 IH1 r2 IH2|g r IH|i r IH| |];
    intros pos s caps k c Hk Hm; cbn [rmatch] in Hm.
  - eauto.
  - destruct s as [|a' s']; [done|]. destruct (lit_eq ic a a'); [eauto|done].
  - destruct s as [|a' s']; [done|]. destruct (p a'); [eauto|done].
  - eapply IH1; [|exact Hm]. intros pos' s' caps' c' Hlen Hm'.
    eapply IH2; [|exact Hm']. intros ???? Hlen' ?. eapply Hk; [|done]. congruence.
  - eapply star_slots; [|exact Hk|exact Hm]. intros; eapply IH; eauto.
  - eapply IH; [|exact Hm]. intros pos' s' caps' c' Hlen Hm'.
    cbn beta in Hm'. eapply Hk; [|exact Hm']. by rewrite length_insert.
  - destruct (pos =? 0); [eauto|done].
  - destruct s as [|a s']; [eauto|].
    destruct (decide (a = "010"%char)) as [->|Hne].
    + destruct s'; [eauto|done].
    + destruct a as [[] [] [] [] [] [] [] []]; try done.
Qed.

Lemma match_groups_length r s m : match_ r s = Some m → length (groups m) = ngroups r.
Proof.
  unfold match_, groups. intros Hm. rewrite length_fmap.
  eapply (rmatch_slots (λ c, length c = ngroups r)); [|exact Hm].
  intros pos' s' caps' c' Hlen Hacc. unfold accept in Hacc. simplify_eq.
  by rewrite Hlen, length_replicate.
Qed.

End captures.

Section parsers.

Lemma match_rows_kept pattern rows lines :
  match_rows pattern rows lines = rows ++ kept_rows pattern lines.
Proof.
  revert rows. induction lines as [|line lines IH]; intros rows.
  - cbn. by rewrite app_nil_r.
  - unfold match_rows, kept_rows in *. cbn [foldl omap list_omap].
    rewrite IH. destruct (match_ pattern (strip line)) as [m|]; cbn.
    + by rewrite <- app_assoc.
    + done.
Qed.

Lemma kept_rows_width pattern lines :
  Forall (λ r, length r = ngroups pattern) (kept_rows pattern lines).
Proof.
  induction lines as [|line lines IH]; [constructor|].
  unfold kept_rows in *. cbn [omap list_omap].
  destruct (match_ pattern (strip line)) as [m|] eqn:Hm; cbn; [|done].
  constructor; [by eapply match_groups_length | done].
Qed.

Lemma kept_rows_le pattern lines : length (kept_rows pattern lines) ≤ length lines.
Proof.
  induction lines as [|line lines IH]; [done|].
  unfold kept_rows in *. cbn [omap list_omap].
  destruct (match_ pattern (strip line)); cbn; lia.
Qed.

Lemma max_list_uniform (w : nat) (ls : list nat) :
  ls ≠ [] → Forall (λ n, n = w) ls → max_list ls = w.
Proof.
  intros Hne Hall. induction Hall as [|n ls -> Hall IH]; [done|].
  cbn. destruct ls as [|n' ls]; [cbn; lia|].
  rewrite IH by done. lia.
Qed.

Lemma transpose_nil pad (names : list string) :
  transpose pad names [] = (λ n, (n, [])) <$> names.
Proof.
  unfold transpose. rewrite <- (imap_const (λ n : string, (n, @nil cell))).
  by apply imap_ext.
Qed.

Lemma names_transpose pad (ns : list string) rows :
  (transpose pad ns rows).*1 = ns.
Proof.
  unfold transpose. rewrite fmap_imap.
  rewrite (imap_ext _ (const id)) by done.
  by rewrite imap_const, list_fmap_id.
Qed.

(** Rows that all have one field per column name always make a frame. *)
Lemma DataFrame_of_rows_uniform rows (ns : list string) :
  Forall (λ r : list cell, length r = length ns) rows →
  DataFrame_of_rows rows ns = Ok (frame ns rows).
Proof.
  intros Hall. unfold DataFrame_of_rows, frame.
  destruct rows as [|r rows]; [by rewrite transpose_nil|].
  rewrite decide_True; [done|].
  apply max_list_uniform; [done|]. by apply Forall_fmap.
Qed.

Lemma regex_parser_eq fs file_path pattern (columns : list string) :
  ngroups pattern = length columns →
  (lines ← open_lines fs file_path;
   DataFrame_of_rows (match_rows pattern [] lines) columns)
  = match read fs file_path with
    | Some lines => Ok (frame columns (kept_rows pattern lines))
    | None => Raise OSError
    end.
Proof.
  intros Hw. unfold open_lines. destruct (read fs file_path) as [lines|]; [|done].
  cbn. rewrite match_rows_kept. cbn [app].
  apply DataFrame_of_rows_uniform. rewrite <- Hw. apply kept_rows_width.
Qed.

Lemma parse_mac_log_eq fs file_path :
  parse_mac_log fs file_path =
  match read fs file_path with
  | Some lines => Ok (frame mac_columns (kept_rows mac_pattern lines))
  | None => Raise OSError
  end.
Proof. by apply regex_parser_eq. Qed.

Lemma parse_android_log_eq fs file_path :
  parse_android_log fs file_path =
  match read fs file_path with
  | Some lines => Ok (frame android_columns (kept_rows android_pattern lines))
  | None => Raise OSError
  end.
Proof. by apply regex_parser_eq. Qed.

End parsers.

(** The two scenario lines of the format table, and the file patterns. *)
Example mac_scenario :
  groups <$> match_ mac_pattern (strip mac_line) =
  Some [CStr "Jan"; CStr "1"; CStr "00:00:01"; CStr "host"; CStr "kernel"; CStr "123";
        CStr "boot complete"].
Proof. reflexivity. Qed.

Example android_scenario :
  groups <$> match_ android_pattern (strip "01-01 00:00:01.123 100 200 I TagX: started") =
  Some [CStr "01-01"; CStr "00:00:01.123"; CStr "100"; CStr "200"; CStr "I"; CStr "TagX";
        CStr "started"].
Proof. reflexivity. Qed.

Example unmatched_line : match_ mac_pattern (strip "garbage") = None.
Proof. reflexivity. Qed.

Example find_file_scenario :
  find_file sample_fs "raw/bgl" bgl_file = Ok "raw/bgl/BGL.log"
  ∧ find_file sample_fs "raw/mac" mac_file = Ok "raw/mac/Mac/Mac.log"
  ∧ find_file sample_fs "raw/android" android_file = Raise FileNotFoundError
  ∧ search true ssh_file "ssh_2k.LOG" = true
  ∧ search true ssh_file "SSH.log.gz" = false.
Proof. by split_and!. Qed.

(** C7.  The console-log and mobile-log parsers raise only when the file
    cannot be opened; on a file that opens they return, for any lines, the
    frame of the records of the lines that match, in order: a line that
    does not match is left out without any error, so the frame has at most
    as many rows as the file has lines. *)
Theorem regex_parsers_skip_unmatched :
  (∀ fs file_path,
     parse_mac_log fs file_path =
     match read fs file_path with
     | Some lines => Ok (frame mac_columns (kept_rows mac_pattern lines))
     | None => Raise OSError
     end)
  ∧ (∀ fs file_path,
       parse_android_log fs file_path =
       match read fs file_path with
       | Some lines => Ok (frame android_columns (kept_rows android_pattern lines))
       | None => Raise OSError
       end)
  ∧ (∀ pattern lines,
       index_len (frame mac_columns (kept_rows pattern lines)) ≤ length lines
       ∧ index_len (frame android_columns (kept_rows pattern lines)) ≤ length lines)
  ∧ (∀ pattern line lines,
       kept_rows pattern (line :: lines) =
       match match_ pattern (strip line) with
       | Some m => groups m :: kept_rows pattern lines
       | None => kept_rows pattern lines
       end).
Proof.
  split_and!.
  - apply parse_mac_log_eq.
  - apply parse_android_log_eq.
  - intros. cbn [frame index_len]. split; apply kept_rows_le.
  - intros. unfold kept_rows. cbn [omap list_omap].
    by destruct (match_ pattern (strip line)).
Qed.

(* ===================================================================== *)
(** * The key-path parser *)
(* ===================================================================== *)

Section split.

Lemma split_go_bound m cur s : length (split_go m cur s) ≤ m + 1 + pending cur.
Proof.
  revert m cur. induction s as [|c s IH]; intros m cur.
  - destruct cur; cbn; lia.
  - cbn [split_go]. destruct cur as [t|]; destruct (isspace c); cbn [length pending].
    + specialize (IH m None). cbn in IH. lia.
    + specialize (IH m (Some (String c t))). cbn in IH. lia.
    + specialize (IH m None). cbn in IH. lia.
    + destruct m as [|m]; [cbn; lia|].
      specialize (IH m (Some (String c EmptyString))). cbn in IH. lia.
Qed.

Lemma split_go_pending m cur s : pending cur ≤ length (split_go m cur s).
Proof.
  revert m cur. induction s as [|c s IH]; intros m cur.
  - destruct cur; cbn; lia.
  - destruct cur as [t|]; [|cbn; lia].
    cbn [split_go pending]. destruct (isspace c); [cbn; lia|].
    apply (IH m (Some (String c t))).
Qed.

Lemma split_go_tokens_le m cur s :
  length (split_go m cur s) ≤ String.length s + pending cur.
Proof.
  revert m cur. induction s as [|c s IH]; intros m cur.
  - destruct cur; cbn; lia.
  - cbn [split_go String.length].
    destruct cur as [t|]; destruct (isspace c); cbn [length pending].
    + specialize (IH m None). cbn in IH. lia.
    + specialize (IH m (Some (String c t))). cbn in IH. lia.
    + specialize (IH m None). cbn in IH. lia.
    + destruct m as [|m]; [cbn; lia|].
      specialize (IH m (Some (String c EmptyString))). cbn in IH. lia.
Qed.

(** A bound on the splits that is never reached does not matter. *)
Lemma split_go_cap m m' cur s :
  length (split_go m' cur s) ≤ m `min` m' + pending cur →
  split_go m cur s = split_go m' cur s.
Proof.
  revert m m' cur. induction s as [|c s IH]; intros m m' cur Hlen.
  - done.
  - cbn [split_go] in *. destruct cur as [t|]; destruct (isspace c).
    + cbn [length pending] in Hlen. f_equal. apply IH. cbn. lia.
    + by apply IH.
    + by apply IH.
    + destruct m' as [|m'].
      { cbn in Hlen. lia. }
      destruct m as [|m].
      { pose proof (split_go_pending m' (Some (String c EmptyString)) s) as Hp.
        cbn in Hlen, Hp. lia. }
      apply IH. cbn [pending] in *. lia.
Qed.

Lemma split_of_split_all n s :
  length (split_all s) ≤ n → split n s = split_all s.
Proof.
  intros Hn. unfold split, split_all in *. apply split_go_cap.
  pose proof (split_go_tokens_le (String.length s) None s) as Hle.
  cbn [pending] in *. lia.
Qed.

Lemma split_at_most n s : length (split n s) ≤ n + 1.
Proof.
  pose proof (split_go_bound n None s) as H. unfold split. cbn [pending] in H. lia.
Qed.

End split.

Section openssh.

Lemma openssh_rows_kept rows lines :
  openssh_rows rows lines = rows ++ kept_parts lines.
Proof.
  revert rows. induction lines as [|line lines IH]; intros rows.
  - cbn. by rewrite app_nil_r.
  - unfold openssh_rows, kept_parts in *. cbn [foldl]. rewrite IH.
    rewrite fmap_cons, filter_cons.
    destruct (decide (length (split 5 (strip line)) = 6)) as [Heq|Hne].
    + rewrite Heq. cbn. by rewrite <- app_assoc.
    + apply Nat.eqb_neq in Hne. rewrite Hne. done.
Qed.

Lemma kept_parts_cons line lines :
  kept_parts (line :: lines) =
  if decide (length (split 5 (strip line)) = 6)
  then (CStr <$> split 5 (strip line)) :: kept_parts lines
  else kept_parts lines.
Proof.
  unfold kept_parts. rewrite fmap_cons, filter_cons.
  by destruct (decide (length (split 5 (strip line)) = 6)).
Qed.

Lemma kept_parts_app l1 l2 : kept_parts (l1 ++ l2) = kept_parts l1 ++ kept_parts l2.
Proof. unfold kept_parts. by rewrite fmap_app, filter_app, fmap_app. Qed.

Lemma kept_parts_width lines : Forall (λ r, length r = 6) (kept_parts lines).
Proof.
  induction lines as [|line lines IH]; [constructor|].
  rewrite kept_parts_cons. case_decide; [|done].
  constructor; [by rewrite length_fmap | done].
Qed.

Lemma kept_parts_all lines : Forall six_parts lines → length (kept_parts lines) = length lines.
Proof.
  induction 1 as [|line lines Hsix Hall IH]; [done|].
  rewrite kept_parts_cons. unfold six_parts in Hsix.
  rewrite decide_True by done. cbn. by rewrite IH.
Qed.

Lemma openssh_frame lines :
  DataFrame_of_rows (openssh_rows [] lines) openssh_columns =
  Ok (frame openssh_columns (kept_parts lines)).
Proof.
  rewrite openssh_rows_kept. cbn [app].
  apply DataFrame_of_rows_uniform, kept_parts_width.
Qed.

End openssh.

(* ===================================================================== *)
(** * The dataset loader *)
(* ===================================================================== *)

(** Reduce the sequencing of [result] computations once. *)
Tactic Notation "py_simpl" := cbn [mbind mret result_bind result_ret bind].
Tactic Notation "py_simpl" "in" hyp(H) :=
  cbn [mbind mret result_bind result_ret bind] in H.


Section numbering.

Lemma insert_LineId_numbered (d : DataFrame) :
  "LineId" ∉ names d → insert 0 "LineId" (range 1 (len d + 1)) d = Ok (numbered d).
Proof. apply insert_LineId. Qed.





Lemma load_openssh_eq fs dataset_dir :
  load_openssh fs dataset_dir =
  (file_path ← find_file fs dataset_dir ssh_file;
   lines ← open_lines fs file_path;
   Ok (numbered (frame openssh_columns (kept_parts lines)))).
Proof.
  unfold load_openssh.
  destruct (find_file fs dataset_dir ssh_file) as [path|e]; [|done].
  py_simpl. unfold open_lines.
  destruct (read fs path) as [lines|]; [|done]. py_simpl.
  rewrite openssh_frame. py_simpl.
  by rewrite insert_LineId_numbered by (by apply (bool_decide_unpack _)).
Qed.

End numbering.

Section openstack.

Lemma openstack_rows_kept rows lines :
  openstack_rows rows lines = rows ++ kept_records lines.
Proof.
  revert rows. induction lines as [|line lines IH]; intros rows.
  - cbn. by rewrite app_nil_r.
  - unfold openstack_rows, kept_records in *. cbn [foldl omap list_omap].
    rewrite IH. destruct (match_ openstack_pattern (strip line)) as [m|]; cbn.
    + by rewrite <- app_assoc.
    + done.
Qed.

Lemma kept_records_app l1 l2 :
  kept_records (l1 ++ l2) = kept_records l1 ++ kept_records l2.
Proof. unfold kept_records. apply omap_app. Qed.

Lemma zip_keys {A} (ks : list string) (vs : list A) x :
  x ∈ (zip ks vs).*1 → x ∈ ks.
Proof.
  revert vs. induction ks as [|k ks IH]; intros [|v vs]; cbn; try by intros ?%elem_of_nil.
  intros [->|Hin]%elem_of_cons; [by left|]. right. by eapply IH.
Qed.

Lemma first_seen_elem seen ks x : x ∈ first_seen seen ks → x ∈ ks.
Proof.
  revert seen. induction ks as [|k ks IH]; intros seen; cbn; [done|].
  destruct (bool_decide (k ∈ seen)).
  - intros Hin. right. by eapply IH.
  - intros [->|Hin]%elem_of_cons; [by left|]. right. by eapply IH.
Qed.

Lemma kept_records_keys lines x :
  x ∈ names (DataFrame_of_records (kept_records lines)) → x ∈ openstack_group_names.
Proof.
  unfold names, DataFrame_of_records. cbn [columns].
  rewrite <- list_fmap_compose.
  rewrite (list_fmap_ext _ id) by done. rewrite list_fmap_id.
  intros Hin%first_seen_elem.
  apply list_elem_of_In, in_concat in Hin as (ks & Hks%list_elem_of_In & Hx%list_elem_of_In).
  apply list_elem_of_fmap in Hks as (r & -> & Hr).
  unfold kept_records in Hr. apply list_elem_of_omap in Hr as (line & _ & Hm).
  destruct (match_ openstack_pattern (strip line)) as [m|]; [|done].
  injection Hm as <-. unfold groupdict in Hx. by eapply zip_keys.
Qed.


End openstack.

Section fixed_width.

Lemma mapM_length {A B} (f : A → result B) xs ys :
  mapM f xs = Ok ys → length ys = length xs.
Proof.
  revert ys. induction xs as [|x xs IH]; intros ys; cbn.
  - by intros [= <-].
  - destruct (f x) as [y|e]; [|done]. destruct (mapM f xs) as [ys'|e]; [|done].
    intros [= <-]. cbn. by rewrite (IH ys').
Qed.

(** Storing a list of the length of the index. *)
Lemma setitem_list_match name values (d : DataFrame) :
  length values = index_len d →
  setitem_list name values d =
  Ok (mkDF (index_len d) (set_column name values (columns d))).
Proof.
  intros Hlen. unfold setitem_list, sanitize_column, ensure_valid_index.
  rewrite Hlen.
  replace ((index_len d =? 0) && (0 <? index_len d)) with false
    by (by destruct (index_len d)).
  by rewrite Nat.eqb_refl.
Qed.

(** Storing a list of another length in a frame that has rows. *)
Lemma setitem_list_mismatch name values (d : DataFrame) :
  length values ≠ index_len d → 0 < index_len d →
  setitem_list name values d = Raise ValueError.
Proof.
  intros Hne Hpos. unfold setitem_list, sanitize_column, ensure_valid_index.
  replace ((index_len d =? 0) && (0 <? length values)) with false
    by (by destruct (index_len d); [lia|]).
  apply Nat.eqb_neq in Hne. by rewrite Hne.
Qed.

(** Storing a non-empty list in a frame without rows: the frame takes
    the length of the list. *)
Lemma setitem_list_empty_frame name values (d : DataFrame) :
  index_len d = 0 → 0 < length values →
  setitem_list name values d =
  Ok (mkDF (length values)
           (set_column name values
              ((λ c, (c.1, replicate (length values) CNaN)) <$> columns d))).
Proof.
  intros Hn Hpos. unfold setitem_list, sanitize_column, ensure_valid_index.
  rewrite Hn. destruct (length values) as [|m] eqn:Hm; [lia|].
  cbn. by rewrite Nat.eqb_refl.
Qed.



Lemma load_bgl_steps structured fs dataset_dir rows contents :
  bgl_passes structured fs dataset_dir rows contents →
  load_bgl structured fs dataset_dir =
  (df ← setitem_list "Content" (CStr <$> contents)
          (mkDF (length rows) (transpose CNaN bgl_columns rows));
   insert 0 "LineId" (range 1 (len df + 1)) df).
Proof.
  intros (path & lines & Hfind & Hrows & Hread & Hcont).
  unfold load_bgl, read_csv, open_lines. rewrite Hfind. py_simpl.
  rewrite Hrows. py_simpl. rewrite Hread. py_simpl. rewrite Hcont. by py_simpl.
Qed.


End fixed_width.

Section runs.


(** One run of the loader, whatever the source. *)
Lemma load_dataset_to_sqlite_eq structured fs name dataset_dir w :
  load_dataset_to_sqlite structured fs name dataset_dir w =
  (mkWorld (run_tables name (source_frame structured fs name dataset_dir) (db w))
           (stdout w ++ run_messages name (source_frame structured fs name dataset_dir)),
   Ok ()).
Proof.
  unfold load_dataset_to_sqlite, load_branch, source_frame, try_except.
  unfold mbind, St_bind.
  repeat case_decide; subst; try done;
    unfold lift, mret, St_ret, df_to_sql, print, to_sql;
    cbn [db stdout run_tables run_messages].
  - by destruct (load_bgl structured fs dataset_dir).
  - by destruct (load_openssh fs dataset_dir).
  - destruct (load_openstack fs dataset_dir) as [df|e]; [|done].
    cbn [db stdout]. rewrite insert_insert_eq, <- app_assoc. done.
  - by destruct (load_mac fs dataset_dir).
  - by destruct (load_android fs dataset_dir).
Qed.

Lemma run_load_db structured fs name dataset_dir w :
  db (run_load structured fs name dataset_dir w) =
  run_tables name (source_frame structured fs name dataset_dir) (db w).
Proof. unfold run_load. by rewrite load_dataset_to_sqlite_eq. Qed.

End runs.

(** C8.  The key-path parser splits each line in at most six parts and
    keeps exactly the lines that split in six, in order; so a line of four
    tokens among lines that are kept lowers the row count by one with
    respect to the number of lines. *)
Theorem openssh_keeps_six_part_lines (before after : list string) (bad : string) :
  length (split_all (strip bad)) = 4 →
  Forall six_parts before →
  Forall six_parts after →
  length (kept_parts (before ++ bad :: after)) = length (before ++ bad :: after) - 1
  ∧ (∀ line, length (split 5 (strip line)) ≤ 6)
  ∧ (∀ (rows : list (list cell)) line lines,
       openssh_rows rows (line :: lines) =
       if decide (length (split 5 (strip line)) = 6)
       then openssh_rows (rows ++ [CStr <$> split 5 (strip line)]) lines
       else openssh_rows rows lines)
  ∧ (∀ fs dataset_dir,
       load_openssh fs dataset_dir =
       (file_path ← find_file fs dataset_dir ssh_file;
        lines ← open_lines fs file_path;
        Ok (numbered (frame openssh_columns (kept_parts lines)))))
  ∧ (∀ lines, index_len (numbered (frame openssh_columns (kept_parts lines)))
              = length (filter six_parts lines)).
Proof.
  intros Hbad Hbefore Hafter. split_and!.
  - rewrite kept_parts_app, kept_parts_cons.
    rewrite decide_False by (rewrite split_of_split_all; lia).
    rewrite !length_app, !kept_parts_all by done. cbn. lia.
  - intros. apply (split_at_most 5).
  - intros. unfold openssh_rows. cbn [foldl].
    destruct (decide (length (split 5 (strip line)) = 6)) as [Heq|Hne].
    + by rewrite Heq.
    + apply Nat.eqb_neq in Hne. by rewrite Hne.
  - apply load_openssh_eq.
  - intros. cbn [numbered frame index_len]. unfold kept_parts.
    rewrite length_fmap. induction lines as [|line lines IH]; [done|].
    rewrite fmap_cons, !filter_cons. unfold six_parts at 1.
    destruct (decide (length (split 5 (strip line)) = 6)); cbn; by rewrite IH.
Qed.

Lemma openssh_keeps_six_part_lines_witness :
  length (split_all (strip ssh_short)) = 4
  ∧ length (kept_parts ([ssh_good1] ++ ssh_short :: [ssh_good2])) = 2.
Proof.
  split; [reflexivity|].
  apply (openssh_keeps_six_part_lines [ssh_good1] [ssh_good2] ssh_short).
  - reflexivity.
  - repeat constructor.
  - repeat constructor.
Defined.

Section tables.




End tables.



Section mismatch.

Lemma load_bgl_mismatch structured fs dataset_dir rows contents :
  bgl_passes structured fs dataset_dir rows contents →
  rows ≠ [] →
  length rows ≠ length contents →
  load_bgl structured fs dataset_dir = Raise ValueError.
Proof.
  intros Hpasses Hrows Hne. rewrite (load_bgl_steps _ _ _ _ _ Hpasses).
  assert (length rows ≠ 0) by (by destruct rows).
  by rewrite setitem_list_mismatch
    by (cbn [index_len]; rewrite ?length_fmap; lia).
Qed.

End mismatch.

(** C6.  A run replaces the table of its source by the frame computed from
    the input and touches no other table (on failure it changes nothing);
    the frame depends on the input only, so a second run on the same input
    leaves the store exactly as the first did. *)
Theorem ingestion_idempotent structured fs name dataset_dir w :
  db (run_load structured fs name dataset_dir
        (run_load structured fs name dataset_dir w))
  = db (run_load structured fs name dataset_dir w)
  ∧ db (run_load structured fs name dataset_dir w)
    = match source_frame structured fs name dataset_dir with
      | Some (Ok df) => <["logs_" +:+ name := df]> (db w)
      | _ => db w
      end
  ∧ (∀ table,
       index_len <$> db (run_load structured fs name dataset_dir
                           (run_load structured fs name dataset_dir w)) !! table
       = index_len <$> db (run_load structured fs name dataset_dir w) !! table).
Proof.
  split_and!.
  - rewrite !run_load_db. unfold run_tables.
    destruct (source_frame structured fs name dataset_dir) as [[df|e]|]; try done.
    apply insert_insert_eq.
  - rewrite run_load_db. unfold run_tables.
    by destruct (source_frame structured fs name dataset_dir) as [[df|e]|].
  - intros table. rewrite !run_load_db. unfold run_tables.
    destruct (source_frame structured fs name dataset_dir) as [[df|e]|]; try done.
    by rewrite insert_insert_eq.
Qed.

(** C5: the fallback under a designated field other than [Content].  On
    a table with the fields [A] and [B], asking for the missing field [Msg]
    raises [KeyError]: the joined values were stored under [Content], and
    the selection that follows looks for [Msg]. *)
Theorem standardize_fallback_raises :
  standardize 0 "Msg" "mac" [two_fields]
  = ([mkDF 2 [("A", [CStr "x"; CStr "u"]); ("B", [CStr "y"; CStr "v"]);
              ("Content", [CStr "x y"; CStr "u v"])]],
     Raise KeyError)
  ∧ "Msg" ∉ names two_fields.
Proof. split; [reflexivity | by apply (bool_decide_unpack _)]. Qed.





(* ===================================================================== *)
(** * Further properties of the loader *)
(* ===================================================================== *)

Section find_file.



End find_file.


Section several_files.

Lemma openstack_files_eq fs rows file_paths :
  openstack_files fs rows file_paths
  = (contents ← mapM (open_lines fs) file_paths;
     Ok (rows ++ kept_records (concat contents))).
Proof.
  revert rows. induction file_paths as [|path rest IH]; intros rows.
  - cbn. by rewrite app_nil_r.
  - cbn [openstack_files mapM]. destruct (open_lines fs path) as [lines|e]; [|done].
    py_simpl. rewrite IH, openstack_rows_kept.
    destruct (mapM (open_lines fs) rest) as [contents|e]; [|done].
    py_simpl. cbn [concat]. by rewrite kept_records_app, app_assoc.
Qed.

Lemma mapM_open_ok fs file_paths :
  is_ok (mapM (open_lines fs) file_paths) = forallb (readable fs) file_paths.
Proof.
  induction file_paths as [|path rest IH]; [done|].
  cbn [mapM forallb]. unfold open_lines at 1, readable at 1.
  destruct (read fs path); [|done]. cbn [andb]. rewrite <- IH.
  by destruct (mapM (open_lines fs) rest).
Qed.

Lemma mapM_open_raise fs file_paths e :
  mapM (open_lines fs) file_paths = Raise e → e = OSError.
Proof.
  induction file_paths as [|path rest IH]; [done|].
  cbn [mapM]. unfold open_lines at 1. destruct (read fs path).
  - destruct (mapM (open_lines fs) rest); [done|]. intros [= <-]. by apply IH.
  - by intros [= <-].
Qed.

Lemma kept_records_concat contents :
  kept_records (concat contents) = concat (kept_records <$> contents).
Proof.
  induction contents as [|c contents IH]; [done|].
  cbn [concat fmap list_fmap]. by rewrite kept_records_app, IH.
Qed.

End several_files.

(** X2.  [load_openstack_logs] over any list of files: the records kept
    of each file, file after file in the order given, are numbered after
    the concatenation; the call returns exactly when every file opens, and
    otherwise raises [OSError] without any frame. *)
Theorem load_openstack_logs_concatenates fs file_paths :
  load_openstack_logs fs file_paths
  = (contents ← mapM (open_lines fs) file_paths;
     Ok (numbered (DataFrame_of_records (concat (kept_records <$> contents)))))
  ∧ is_ok (load_openstack_logs fs file_paths) = forallb (readable fs) file_paths
  ∧ (∀ e, load_openstack_logs fs file_paths = Raise e → e = OSError).
Proof.
  assert (Heq : load_openstack_logs fs file_paths
    = (contents ← mapM (open_lines fs) file_paths;
       Ok (numbered (DataFrame_of_records (concat (kept_records <$> contents)))))).
  { unfold load_openstack_logs. rewrite openstack_files_eq.
    destruct (mapM (open_lines fs) file_paths) as [contents|e]; [|done].
    py_simpl. cbn [app]. rewrite <- kept_records_concat.
    apply insert_LineId_numbered.
    intros Hin%kept_records_keys. revert Hin. by apply (bool_decide_unpack _). }
  split_and!.
  - exact Heq.
  - rewrite Heq, <- mapM_open_ok.
    by destruct (mapM (open_lines fs) file_paths).
  - intros e. rewrite Heq.
    destruct (mapM (open_lines fs) file_paths) as [contents|e'] eqn:Hm; [done|].
    py_simpl. intros [= <-]. by eapply mapM_open_raise.
Qed.

(** X3.  A run of the loader writes at most the table of its source:
    every table other than [logs_<name>] is after the run as it was before,
    whatever the source name, the files and the structured pass; and when
    the source fails or has no parser, no table changes at all. *)
Theorem loader_writes_own_table_only structured fs name dataset_dir w :
  (∀ table, table ≠ "logs_" +:+ name →
     db (run_load structured fs name dataset_dir w) !! table = db w !! table)
  ∧ (if source_frame structured fs name dataset_dir is Some (Ok _) then True
     else db (run_load structured fs name dataset_dir w) = db w).
Proof.
  rewrite run_load_db. unfold run_tables. split.
  - intros table Hne.
    destruct (source_frame structured fs name dataset_dir) as [[df|e]|]; try done.
    by rewrite lookup_insert_ne.
  - by destruct (source_frame structured fs name dataset_dir) as [[df|e]|].
Qed.

Lemma loader_writes_own_table_only_witness :
  "logs_bgl" ≠ "logs_" +:+ "mac"
  ∧ db (run_load keeps_nothing sample_fs "mac" "raw/mac"
          (mkWorld {[ "logs_bgl" := two_fields ]} [])) !! "logs_bgl"
    = Some two_fields.
Proof.
  split; [done|].
  exact (proj1 (loader_writes_own_table_only keeps_nothing sample_fs "mac" "raw/mac"
                  (mkWorld {[ "logs_bgl" := two_fields ]} []))
           "logs_bgl" ltac:(done)).
Defined.

(** X4.  Runs for two different sources do not interfere: whichever runs
    first, the store ends up the same. *)
Theorem loads_commute structured fs name1 dir1 name2 dir2 w :
  name1 ≠ name2 →
  db (run_load structured fs name2 dir2 (run_load structured fs name1 dir1 w))
  = db (run_load structured fs name1 dir1 (run_load structured fs name2 dir2 w)).
Proof.
  intros Hne. rewrite !run_load_db. unfold run_tables.
  assert ("logs_" +:+ name1 ≠ "logs_" +:+ name2) as Hne'.
  { intros Heq. by apply (inj (String.app "logs_")) in Heq. }
  destruct (source_frame structured fs name1 dir1) as [[df1|e1]|];
    destruct (source_frame structured fs name2 dir2) as [[df2|e2]|]; try done.
  by apply insert_insert_ne.
Qed.

Lemma loads_commute_witness :
  "mac" ≠ "openssh"
  ∧ db (run_load keeps_nothing sample_fs "openssh" "raw/openssh"
          (run_load keeps_nothing sample_fs "mac" "raw/mac" empty_world))
    = db (run_load keeps_nothing sample_fs "mac" "raw/mac"
            (run_load keeps_nothing sample_fs "openssh" "raw/openssh" empty_world)).
Proof.
  split; [done|].
  apply (loads_commute keeps_nothing sample_fs "mac" "raw/mac" "openssh" "raw/openssh").
  done.
Defined.

(* ===================================================================== *)
(** * Whitespace *)
(* ===================================================================== *)

Section whitespace.

Lemma str_app_nil_r (s : string) : s +:+ "" = s.
Proof.
  induction s as [|a s IH]; [done|].
  change (String a s +:+ "") with (String a (s +:+ "")). by rewrite IH.
Qed.

Lemma str_app_cons a (s1 s2 : string) : String a s1 +:+ s2 = String a (s1 +:+ s2).
Proof. reflexivity. Qed.

Lemma rev_app_spec (s1 s2 : string) : String.rev_app s1 s2 = String.rev s1 +:+ s2.
Proof.
  unfold String.rev. revert s2. induction s1 as [|a s1 IH]; intros s2; [done|].
  cbn [String.rev_app]. rewrite IH, (IH (String a "")), str_app_assoc. done.
Qed.

Lemma rev_cons a (s : string) : String.rev (String a s) = String.rev s +:+ String a "".
Proof. unfold String.rev at 1. cbn [String.rev_app]. apply rev_app_spec. Qed.

Lemma rev_app (s1 s2 : string) : String.rev (s1 +:+ s2) = String.rev s2 +:+ String.rev s1.
Proof.
  induction s1 as [|a s1 IH].
  - change ("" +:+ s2) with s2. by rewrite str_app_nil_r.
  - rewrite str_app_cons, !rev_cons, IH, str_app_assoc. done.
Qed.

Lemma rev_involutive (s : string) : String.rev (String.rev s) = s.
Proof.
  induction s as [|a s IH]; [done|].
  rewrite rev_cons, rev_app, IH. reflexivity.
Qed.

Lemma has_space_app (s1 s2 : string) :
  has_space (s1 +:+ s2) = has_space s1 || has_space s2.
Proof.
  induction s1 as [|a s1 IH]; [done|].
  rewrite str_app_cons. cbn [has_space]. rewrite IH. by rewrite orb_assoc.
Qed.

Lemma has_space_rev (s : string) : has_space (String.rev s) = has_space s.
Proof.
  induction s as [|a s IH]; [done|].
  rewrite rev_cons, has_space_app, IH. cbn [has_space].
  rewrite orb_false_r. apply orb_comm.
Qed.

Lemma all_space_app (s1 s2 : string) :
  all_space (s1 +:+ s2) = all_space s1 && all_space s2.
Proof.
  induction s1 as [|a s1 IH]; [done|].
  rewrite str_app_cons. cbn [all_space]. rewrite IH. by rewrite andb_assoc.
Qed.

Lemma all_space_rev (s : string) : all_space (String.rev s) = all_space s.
Proof.
  induction s as [|a s IH]; [done|].
  rewrite rev_cons, all_space_app, IH. cbn [all_space].
  rewrite andb_true_r. apply andb_comm.
Qed.

Lemma rev_nonempty (s : string) : s ≠ "" → String.rev s ≠ "".
Proof.
  intros Hs Hrev. apply Hs. rewrite <- (rev_involutive s), Hrev. done.
Qed.

Lemma lstrip_all_space (s : string) : all_space s = true → lstrip s = "".
Proof.
  induction s as [|a s IH]; [done|]. cbn [all_space lstrip].
  intros [Ha Hs]%andb_true_iff. rewrite Ha. by apply IH.
Qed.

Lemma lstrip_empty_all_space (s : string) : lstrip s = "" → all_space s = true.
Proof.
  induction s as [|a s IH]; [done|]. cbn [all_space lstrip].
  destruct (isspace a); [|done]. intros Hs. by rewrite IH.
Qed.

Lemma lstrip_app_space (a s : string) : all_space a = true → lstrip (a +:+ s) = lstrip s.
Proof.
  induction a as [|c a IH]; [done|]. cbn [all_space].
  intros [Hc Ha]%andb_true_iff. rewrite str_app_cons. cbn [lstrip]. rewrite Hc. by apply IH.
Qed.

Lemma lstrip_app (s b : string) :
  lstrip (s +:+ b) = if decide (lstrip s = "") then lstrip b else lstrip s +:+ b.
Proof.
  induction s as [|c s IH]; [done|].
  rewrite str_app_cons. cbn [lstrip]. destruct (isspace c); [done|].
  by rewrite decide_False.
Qed.

Lemma lstrip_head (s : string) c r : lstrip s = String c r → isspace c = false.
Proof.
  induction s as [|a s IH]; [done|]. cbn [lstrip].
  destruct (isspace a) eqn:Ha; [done|]. by intros [= <- <-].
Qed.

Lemma rstrip_app_space (s b : string) : all_space b = true → rstrip (s +:+ b) = rstrip s.
Proof.
  intros Hb. unfold rstrip. rewrite rev_app, lstrip_app_space; [done|].
  by rewrite all_space_rev.
Qed.

(** Whitespace around a line does not change what [strip] returns. *)
Lemma strip_padded a b (s : string) :
  all_space a = true → all_space b = true → strip (padded a b s) = strip s.
Proof.
  intros Ha Hb. unfold strip, padded. rewrite lstrip_app_space by done.
  rewrite lstrip_app. case_decide as Hs.
  - rewrite Hs, (lstrip_all_space b) by done. done.
  - by apply rstrip_app_space.
Qed.

Lemma strip_all_space (s : string) : all_space s = true → strip s = "".
Proof. intros Hs. unfold strip. by rewrite lstrip_all_space. Qed.

(** A line that is not blank strips to a text that starts with a
    character other than whitespace. *)
Lemma strip_not_blank (s : string) :
  all_space s = false → ∃ c r, strip s = String c r ∧ isspace c = false.
Proof.
  intros Hs. unfold strip, rstrip.
  destruct (lstrip s) as [|c r] eqn:Hl.
  { apply lstrip_empty_all_space in Hl. congruence. }
  pose proof (lstrip_head _ _ _ Hl) as Hc.
  rewrite rev_cons, lstrip_app.
  case_decide as Hr.
  - cbn [lstrip]. rewrite Hc. exists c, "". done.
  - rewrite rev_app. exists c, (String.rev (lstrip (String.rev r))). done.
Qed.

End whitespace.

(** X5.  Whitespace before and after a line (blanks, tabs, the line
    terminator) changes nothing for any parser: the regex parsers, the
    distributed-service parser and the key-path parser keep the same
    records from the padded lines as from the lines themselves, and the
    content pass of the fixed-width branch gives the same entries, or
    raises alike. *)
Theorem parsers_ignore_surrounding_whitespace (before after : string) :
  all_space before = true →
  all_space after = true →
  (∀ line, strip (padded before after line) = strip line)
  ∧ (∀ pattern lines,
       kept_rows pattern (padded before after <$> lines) = kept_rows pattern lines)
  ∧ (∀ lines, kept_records (padded before after <$> lines) = kept_records lines)
  ∧ (∀ lines, kept_parts (padded before after <$> lines) = kept_parts lines)
  ∧ (∀ pattern rows lines,
       match_rows pattern rows (padded before after <$> lines)
       = match_rows pattern rows lines)
  ∧ (∀ line, content_of (padded before after line) = content_of line)
  ∧ (∀ lines, mapM content_of (padded before after <$> lines) = mapM content_of lines).
Proof.
  intros Ha Hb.
  assert (Hstrip : ∀ line, strip (padded before after line) = strip line)
    by (intros; by apply strip_padded).
  split_and!.
  - exact Hstrip.
  - intros pattern lines. unfold kept_rows.
    induction lines as [|line lines IH]; [done|].
    rewrite fmap_cons. cbn [omap list_omap]. by rewrite Hstrip, IH.
  - intros lines. unfold kept_records.
    induction lines as [|line lines IH]; [done|].
    rewrite fmap_cons. cbn [omap list_omap]. by rewrite Hstrip, IH.
  - intros lines. unfold kept_parts. f_equal. f_equal.
    rewrite <- list_fmap_compose. apply list_fmap_ext. intros i line _.
    cbn. by rewrite Hstrip.
  - intros pattern rows lines. rewrite !match_rows_kept. f_equal.
    unfold kept_rows. induction lines as [|line lines IH]; [done|].
    rewrite fmap_cons. cbn [omap list_omap]. by rewrite Hstrip, IH.
  - intros line. unfold content_of. by rewrite Hstrip.
  - intros lines. induction lines as [|line lines IH]; [done|].
    rewrite fmap_cons. cbn [mapM]. rewrite IH.
    unfold content_of. by rewrite Hstrip.
Qed.

Lemma parsers_ignore_surrounding_whitespace_witness :
  all_space "  " = true
  ∧ all_space nl = true
  ∧ kept_rows mac_pattern [padded "  " nl "Jan 1 00:00:01 host kernel[123]: boot complete"]
    = kept_rows mac_pattern ["Jan 1 00:00:01 host kernel[123]: boot complete"].
Proof.
  split; [reflexivity|]. split; [reflexivity|].
  exact (proj1 (proj2 (parsers_ignore_surrounding_whitespace "  " nl eq_refl eq_refl))
           mac_pattern ["Jan 1 00:00:01 host kernel[123]: boot complete"]).
Defined.

Section content_pass.

Lemma split_head_nonempty m c r :
  isspace c = false → split (S m) (String c r) ≠ [].
Proof.
  intros Hc. unfold split. cbn [split_go]. rewrite Hc.
  pose proof (split_go_pending m (Some (String c "")) r) as Hp. cbn [pending] in Hp.
  intros Heq. rewrite Heq in Hp. cbn in Hp. lia.
Qed.

Lemma last_item_ok {A} (xs : list A) : is_ok (last_item xs) = bool_decide (xs ≠ []).
Proof.
  unfold last_item. destruct xs as [|x xs]; [done|].
  rewrite bool_decide_eq_true_2 by done.
  destruct (last (x :: xs)) eqn:Hl; [done|]. by apply last_None in Hl.
Qed.

Lemma content_of_blank line : blank line = true → content_of line = Raise IndexError.
Proof. intros Hb. unfold content_of. by rewrite strip_all_space. Qed.

Lemma content_of_not_blank line : blank line = false → is_ok (content_of line) = true.
Proof.
  intros Hb. unfold content_of. rewrite last_item_ok.
  destruct (strip_not_blank line Hb) as (c & r & -> & Hc).
  apply bool_decide_eq_true_2. by apply split_head_nonempty.
Qed.

Lemma content_of_raise line e : content_of line = Raise e → e = IndexError.
Proof.
  unfold content_of, last_item. destruct (last _); [done|]. by intros [= <-].
Qed.

Lemma content_pass_ok lines :
  is_ok (mapM content_of lines) = forallb (λ line, negb (blank line)) lines.
Proof.
  induction lines as [|line lines IH]; [done|].
  cbn [mapM forallb]. destruct (blank line) eqn:Hb.
  - by rewrite content_of_blank.
  - pose proof (content_of_not_blank line Hb) as Hok.
    destruct (content_of line); [|done]. cbn [negb andb]. rewrite <- IH.
    by destruct (mapM content_of lines).
Qed.

Lemma content_pass_raise lines e : mapM content_of lines = Raise e → e = IndexError.
Proof.
  induction lines as [|line lines IH]; [done|]. cbn [mapM].
  destruct (content_of line) eqn:Hc.
  - destruct (mapM content_of lines); [done|]. intros [= <-]. by apply IH.
  - intros [= <-]. by eapply content_of_raise.
Qed.

Lemma no_blank_all_kept lines :
  existsb blank lines = false →
  length (filter (λ line, blank line = false) lines) = length lines.
Proof.
  induction lines as [|line lines IH]; [done|].
  cbn [existsb]. intros [Hb Hbs]%orb_false_elim.
  rewrite filter_cons, decide_True by done. cbn [length]. by rewrite IH.
Qed.

Lemma content_pass_blank lines :
  existsb blank lines = true → mapM content_of lines = Raise IndexError.
Proof.
  intros Hblank.
  destruct (mapM content_of lines) as [contents|e] eqn:Hm.
  - pose proof (content_pass_ok lines) as Hok. rewrite Hm in Hok. cbn in Hok.
    assert (forallb (λ line, negb (blank line)) lines = negb (existsb blank lines)) as Hneg.
    { clear. induction lines as [|l ls IH]; [done|]. cbn.
      rewrite IH. by destruct (blank l), (existsb blank ls). }
    rewrite Hneg, Hblank in Hok. done.
  - by rewrite (content_pass_raise _ _ Hm).
Qed.

Lemma content_pass_no_blank lines :
  existsb blank lines = false →
  ∃ contents, mapM content_of lines = Ok contents ∧ length contents = length lines.
Proof.
  intros Hblank. pose proof (content_pass_ok lines) as Hok.
  assert (forallb (λ line, negb (blank line)) lines = negb (existsb blank lines)) as Hneg.
  { clear. induction lines as [|l ls IH]; [done|]. cbn.
    rewrite IH. by destruct (blank l), (existsb blank ls). }
  rewrite Hneg, Hblank in Hok.
  destruct (mapM content_of lines) as [contents|e] eqn:Hm; [|done].
  exists contents. split; [done|]. by eapply mapM_length.
Qed.

Lemma load_bgl_blank structured fs dataset_dir file_path rows lines :
  find_file fs dataset_dir bgl_file = Ok file_path →
  structured file_path = Ok rows →
  read fs file_path = Some lines →
  existsb blank lines = true →
  load_bgl structured fs dataset_dir = Raise IndexError.
Proof.
  intros Hfind Hrows Hread Hblank.
  unfold load_bgl, read_csv, open_lines. rewrite Hfind. py_simpl.
  rewrite Hrows. py_simpl. rewrite Hread. py_simpl.
  fold content_of. by rewrite (content_pass_blank lines Hblank).
Qed.

End content_pass.

(** C4.  The two passes of the fixed-width source read the same file: the
    structured pass keeps [rows], the content pass goes through [lines],
    one entry per line.  When the two numbers differ the run fails: it
    prints the failure and stores no table, so nothing is cut to the
    shorter length.  With the structured pass as [pd.read_csv] performs it
    (one row per line that is not blank) a difference means a blank line,
    on which the content pass raises [IndexError]; and for any structured
    pass that kept a row, the run fails with [IndexError] if a line is
    blank and with the [ValueError] of the column assignment if not. *)
Theorem bgl_mismatch_fails structured fs dataset_dir file_path rows lines w :
  find_file fs dataset_dir bgl_file = Ok file_path →
  structured file_path = Ok rows →
  read fs file_path = Some lines →
  length rows ≠ length lines →
  (one_row_per_record rows lines →
     load_dataset_to_sqlite structured fs "bgl" dataset_dir w
     = (mkWorld (db w) (stdout w ++ [Failed "bgl" IndexError]), Ok ()))
  ∧ (rows ≠ [] →
     load_dataset_to_sqlite structured fs "bgl" dataset_dir w
     = (mkWorld (db w)
          (stdout w ++ [Failed "bgl" (if existsb blank lines then IndexError
                                       else ValueError)]),
        Ok ())).
Proof.
  intros Hfind Hrows Hread Hne.
  assert (Hrun : ∀ e, load_bgl structured fs dataset_dir = Raise e →
            load_dataset_to_sqlite structured fs "bgl" dataset_dir w
            = (mkWorld (db w) (stdout w ++ [Failed "bgl" e]), Ok ())).
  { intros e He. rewrite load_dataset_to_sqlite_eq. unfold source_frame.
    rewrite decide_True by done. by rewrite He. }
  split.
  - intros Hreader. apply Hrun.
    apply (load_bgl_blank _ _ _ _ _ _ Hfind Hrows Hread).
    destruct (existsb blank lines) eqn:Hblank; [done|].
    destruct Hne. unfold one_row_per_record in Hreader.
    by rewrite Hreader, no_blank_all_kept.
  - intros Hkept. apply Hrun.
    destruct (existsb blank lines) eqn:Hblank.
    + by apply (load_bgl_blank _ _ _ _ _ _ Hfind Hrows Hread).
    + destruct (content_pass_no_blank lines Hblank) as (contents & Hm & Hlen).
      apply (load_bgl_mismatch structured fs dataset_dir rows contents);
        [|done|by rewrite Hlen].
      by exists file_path, lines.
Qed.

Lemma bgl_mismatch_fails_witness :
  find_file trailing_fs "raw/bgl" bgl_file = Ok "raw/bgl/BGL.log"
  ∧ length [nine_fields] ≠ length [bgl_line; nl]
  ∧ one_row_per_record [nine_fields] [bgl_line; nl]
  ∧ load_dataset_to_sqlite keeps_one trailing_fs "bgl" "raw/bgl" empty_world
    = (mkWorld ∅ [Failed "bgl" IndexError], Ok ()).
Proof.
  assert (Hne : length [nine_fields] ≠ length [bgl_line; nl]) by (cbn; lia).
  assert (Hreader : one_row_per_record [nine_fields] [bgl_line; nl]) by reflexivity.
  split; [reflexivity|]. split; [exact Hne|]. split; [exact Hreader|].
  exact (proj1 (bgl_mismatch_fails keeps_one trailing_fs "raw/bgl" "raw/bgl/BGL.log"
                  [nine_fields] [bgl_line; nl] empty_world
                  eq_refl eq_refl eq_refl Hne) Hreader).
Defined.

(** X6.  The content pass of the fixed-width branch gives one entry per
    line and raises [IndexError] exactly when some line is blank; so a file
    with a blank line that the structured pass accepts makes the run of the
    source fail with [IndexError], and nothing is stored. *)
Theorem bgl_blank_line_fails structured fs dataset_dir file_path rows lines w :
  find_file fs dataset_dir bgl_file = Ok file_path →
  structured file_path = Ok rows →
  read fs file_path = Some lines →
  existsb blank lines = true →
  load_dataset_to_sqlite structured fs "bgl" dataset_dir w
  = (mkWorld (db w) (stdout w ++ [Failed "bgl" IndexError]), Ok ())
  ∧ (∀ ls, is_ok (mapM content_of ls) = forallb (λ line, negb (blank line)) ls)
  ∧ (∀ ls e, mapM content_of ls = Raise e → e = IndexError)
  ∧ (∀ ls contents, mapM content_of ls = Ok contents → length contents = length ls).
Proof.
  intros Hfind Hrows Hread Hblank. split_and!.
  - rewrite load_dataset_to_sqlite_eq. unfold source_frame.
    rewrite decide_True by done.
    by rewrite (load_bgl_blank _ _ _ _ _ _ Hfind Hrows Hread Hblank).
  - apply content_pass_ok.
  - apply content_pass_raise.
  - intros ls contents. apply mapM_length.
Qed.

Lemma bgl_blank_line_fails_witness :
  find_file gapped_fs "raw/bgl" bgl_file = Ok "raw/bgl/BGL.log"
  ∧ existsb blank [bgl_line; nl; bgl_line] = true
  ∧ load_dataset_to_sqlite keeps_two gapped_fs "bgl" "raw/bgl" empty_world
    = (mkWorld ∅ [Failed "bgl" IndexError], Ok ()).
Proof.
  split; [reflexivity|]. split; [reflexivity|].
  exact (proj1 (bgl_blank_line_fails keeps_two gapped_fs "raw/bgl" "raw/bgl/BGL.log"
                  [nine_fields; nine_fields] [bgl_line; nl; bgl_line] empty_world
                  eq_refl eq_refl eq_refl eq_refl)).
Defined.

(* ===================================================================== *)
(** * Fields of the key-path rows *)
(* ===================================================================== *)

Section fields.

Lemma token_rev t : token t → token (String.rev t).
Proof.
  intros [Hne Hsp]. split; [by apply rev_nonempty | by rewrite has_space_rev].
Qed.

Lemma token_cons c t : isspace c = false → has_space t = false → token (String c t).
Proof. intros Hc Ht. split; [done|]. cbn [has_space]. by rewrite Hc, Ht. Qed.

(** Every part is non-empty, and the parts cut by a split are tokens. *)
Lemma split_go_fields s : ∀ m cur,
  (∀ t, cur = Some t → token t) →
  Forall (λ p, p ≠ "") (split_go m cur s)
  ∧ Forall token (take (m + pending cur) (split_go m cur s)).
Proof.
  induction s as [|c s IH]; intros m cur Hcur.
  - destruct cur as [t|]; cbn [split_go pending].
    + pose proof (token_rev t (Hcur t eq_refl)) as Ht. split.
      * constructor; [apply Ht | constructor].
      * replace (m + 1) with (S m) by lia. cbn [take]. rewrite take_nil.
        constructor; [exact Ht | constructor].
    + split; [constructor|]. by rewrite take_nil.
  - cbn [split_go]. destruct cur as [t|]; cbn [pending].
    + destruct (isspace c) eqn:Hc.
      * pose proof (token_rev t (Hcur t eq_refl)) as Ht.
        destruct (IH m None) as [IH1 IH2]; [done|]. cbn [pending] in IH2.
        rewrite Nat.add_0_r in IH2. split.
        -- constructor; [apply Ht | done].
        -- replace (m + 1) with (S m) by lia. cbn [take]. by constructor.
      * apply (IH m (Some (String c t))). intros t' [= <-].
        destruct (Hcur t eq_refl) as [_ Hsp]. by apply token_cons.
    + destruct (isspace c) eqn:Hc.
      * apply (IH m None). done.
      * destruct m as [|m].
        -- split; [|constructor]. constructor; [done | constructor].
        -- destruct (IH m (Some (String c ""))) as [IH1 IH2].
           { intros t' [= <-]. by apply token_cons. }
           cbn [pending] in IH2. split; [done|].
           by replace (S m + 0) with (m + 1) by lia.
Qed.

Lemma split_fields n s :
  Forall (λ p, p ≠ "") (split n s) ∧ Forall token (take n (split n s)).
Proof.
  destruct (split_go_fields s n None) as [H1 H2]; [done|].
  cbn [pending] in H2. rewrite Nat.add_0_r in H2. done.
Qed.

End fields.

(** X7.  Every row the key-path parser keeps has six fields; the first
    five ([Date], [Day], [Time], [Component], [Pid]) are non-empty and free
    of whitespace, and the sixth ([Content]) is non-empty. *)
Theorem openssh_rows_have_six_fields lines :
  Forall (λ row : list cell,
            ∃ date day time component pid content,
              row = [CStr date; CStr day; CStr time; CStr component; CStr pid; CStr content]
              ∧ token date ∧ token day ∧ token time ∧ token component ∧ token pid
              ∧ content ≠ "")
         (kept_parts lines).
Proof.
  induction lines as [|line lines IH]; [constructor|].
  rewrite kept_parts_cons. case_decide as Hsix; [|done].
  constructor; [|done].
  destruct (split_fields 5 (strip line)) as [Hne Htok].
  destruct (split 5 (strip line)) as [|a [|b [|c [|d [|e [|r [|x rest]]]]]]]; try done.
  exists a, b, c, d, e, r. cbn [take] in Htok.
  repeat match goal with
         | H : Forall _ (_ :: _) |- _ => apply Forall_cons_1 in H as [? H]
         end.
  by split_and!.
Qed.

(* ===================================================================== *)
(** * Further properties of the query builder *)
(* ===================================================================== *)

Section bindings.

Lemma count_join_and (clauses : list string) :
  count_char "?" (join " AND " clauses) = sum_list (count_char "?" <$> clauses).
Proof.
  induction clauses as [|c [|c' clauses] IH]; [done|cbn; unfold id; lia|].
  change (join " AND " (c :: c' :: clauses))
    with (c +:+ " AND " +:+ join " AND " (c' :: clauses)).
  rewrite !count_char_app, IH.
  change (count_char "?" " AND ") with 0.
  cbn [fmap list_fmap sum_list sum_list_with]. unfold id. lia.
Qed.

Lemma count_clause col n :
  count_char "?" (clause col n) = count_char "?" col + n.
Proof.
  unfold clause. rewrite !count_char_app, count_placeholders.
  change (count_char "?" "LOWER(") with 0. change (count_char "?" ") IN (") with 0.
  change (count_char "?" ")") with 0. lia.
Qed.

Lemma count_clauses_of (filters : FilterSpec) :
  Forall (λ it, count_char "?" it.1 = 0) filters →
  sum_list (count_char "?" <$> clauses_of filters) = length (bound_values filters).
Proof.
  induction 1 as [|[col vals] filters Hcol Hall IH]; [done|].
  rewrite clauses_of_cons. unfold bound_values. rewrite fmap_cons, concat_cons.
  fold (bound_values filters). rewrite length_app, length_fmap. cbn [snd fst] in *.
  destruct vals as [|v vals].
  - rewrite bool_decide_eq_false_2 by (intros H; by apply H). cbn. exact IH.
  - rewrite bool_decide_eq_true_2 by done. cbn [app fmap list_fmap sum_list sum_list_with].
    rewrite count_clause, Hcol, <- IH. done.
Qed.

End bindings.

(** X8.  When no column name contains a question mark, the predicate text
    has exactly as many placeholders as there are bound parameters, so the
    statement and its parameter list always agree in number. *)
Theorem placeholders_match_parameters (filters : FilterSpec) :
  Forall (λ it, count_char "?" it.1 = 0) filters →
  count_char "?" (build_where_clause filters).1 = length (build_where_clause filters).2.
Proof.
  intros Hcols. rewrite build_where_clause_eq. cbn [fst snd].
  rewrite <- (count_clauses_of filters Hcols).
  unfold where_text. fold (clauses_of filters).
  destruct (clauses_of filters) as [|c cs] eqn:Hcl; [done|].
  rewrite count_char_app, count_join_and. done.
Qed.

Lemma placeholders_match_parameters_witness :
  Forall (λ it : string * list string, count_char "?" it.1 = 0)
         [("team", ["RTL_TEAM"; "DFT_TEAM"]); ("chip_id", []); ("impact_score", ["HIGH"])]
  ∧ count_char "?" (build_where_clause
                      [("team", ["RTL_TEAM"; "DFT_TEAM"]); ("chip_id", []);
                       ("impact_score", ["HIGH"])]).1 = 3.
Proof.
  assert (H : Forall (λ it : string * list string, count_char "?" it.1 = 0)
                [("team", ["RTL_TEAM"; "DFT_TEAM"]); ("chip_id", []);
                 ("impact_score", ["HIGH"])])
    by (repeat constructor).
  split; [exact H|].
  exact (placeholders_match_parameters _ H).
Defined.

(* ===================================================================== *)
(** * The filter options of the dashboard *)
(* ===================================================================== *)

Section options.

Lemma upper_char_space c : isspace (upper_char c) = isspace c.
Proof. destruct c as [[] [] [] [] [] [] [] []]; reflexivity. Qed.

Lemma upper_char_idem c : upper_char (upper_char c) = upper_char c.
Proof. destruct c as [[] [] [] [] [] [] [] []]; reflexivity. Qed.

Lemma lower_upper_char c : lower_char (upper_char c) = lower_char c.
Proof. destruct c as [[] [] [] [] [] [] [] []]; reflexivity. Qed.

Lemma upper_app (s1 s2 : string) : upper (s1 +:+ s2) = upper s1 +:+ upper s2.
Proof.
  induction s1 as [|a s1 IH]; [done|].
  rewrite str_app_cons. cbn [upper]. by rewrite IH.
Qed.

Lemma upper_rev (s : string) : upper (String.rev s) = String.rev (upper s).
Proof.
  induction s as [|a s IH]; [done|].
  cbn [upper]. by rewrite !rev_cons, upper_app, IH.
Qed.

Lemma upper_lstrip (s : string) : upper (lstrip s) = lstrip (upper s).
Proof.
  induction s as [|a s IH]; [done|].
  cbn [lstrip upper]. rewrite upper_char_space. by destruct (isspace a).
Qed.

Lemma upper_strip (s : string) : upper (strip s) = strip (upper s).
Proof.
  unfold strip, rstrip. by rewrite upper_rev, upper_lstrip, upper_rev, upper_lstrip.
Qed.

Lemma upper_idem (s : string) : upper (upper s) = upper s.
Proof. induction s as [|a s IH]; [done|]. cbn [upper]. by rewrite upper_char_idem, IH. Qed.

Lemma lower_upper (s : string) : lower (upper s) = lower s.
Proof.
  induction s as [|a s IH]; [done|]. cbn [upper lower]. by rewrite lower_upper_char, IH.
Qed.

Lemma lstrip_idem (s : string) : lstrip (lstrip s) = lstrip s.
Proof.
  induction s as [|a s IH]; [done|]. cbn [lstrip].
  destruct (isspace a) eqn:Ha; [done|]. cbn [lstrip]. by rewrite Ha.
Qed.

Lemma strip_idem (s : string) : strip (strip s) = strip s.
Proof.
  destruct (all_space s) eqn:Hs.
  - by rewrite (strip_all_space s Hs).
  - destruct (strip_not_blank s Hs) as (c & r & Heq & Hc).
    unfold strip at 1. rewrite Heq. cbn [lstrip]. rewrite Hc.
    rewrite <- Heq. unfold strip, rstrip.
    by rewrite rev_involutive, lstrip_idem.
Qed.

Lemma clean_value_text v :
  clean_value v
  = CStr (if decide (upper (strip (str_of_cell v)) = "NAN") then ""
          else upper (strip (str_of_cell v))).
Proof. reflexivity. Qed.

Lemma clean_value_idem v : clean_value (clean_value v) = clean_value v.
Proof.
  rewrite (clean_value_text v).
  set (s := upper (strip (str_of_cell v))).
  assert (Hs : upper (strip s) = s).
  { unfold s. by rewrite upper_strip, upper_idem, <- upper_strip, strip_idem. }
  case_decide as Hnan.
  - reflexivity.
  - rewrite clean_value_text. cbn [str_of_cell]. rewrite Hs. by rewrite decide_False.
Qed.

Lemma clean_column_names (df : DataFrame) col :
  names (clean_column df col) = names df.
Proof.
  unfold clean_column. destruct (column col df) as [values|] eqn:Hcol; [|done].
  unfold setitem_series, names. cbn [columns]. rewrite names_set_column.
  rewrite bool_decide_eq_true_2; [done|].
  apply assoc_Some_names. unfold column in Hcol. eauto.
Qed.

Lemma clean_column_other (df : DataFrame) col col' :
  col ≠ col' → column col' (clean_column df col) = column col' df.
Proof.
  intros Hne. unfold clean_column. destruct (column col df) as [values|]; [|done].
  unfold setitem_series, column. cbn [columns]. by apply assoc_set_column_ne.
Qed.

Lemma clean_column_same (df : DataFrame) col values :
  column col df = Some values →
  column col (clean_column df col) = Some (clean_value <$> values).
Proof.
  intros Hcol. unfold clean_column. rewrite Hcol.
  unfold setitem_series, column. cbn [columns]. apply assoc_set_column.
Qed.

Lemma foldl_clean_names (df : DataFrame) cols :
  names (foldl clean_column df cols) = names df
  ∧ index_len (foldl clean_column df cols) = index_len df.
Proof.
  revert df. induction cols as [|col cols IH]; intros df; [done|].
  cbn [foldl]. destruct (IH (clean_column df col)) as [-> ->].
  split; [apply clean_column_names|].
  unfold clean_column. by destruct (column col df).
Qed.

Lemma foldl_clean_column (df : DataFrame) cols col values :
  NoDup cols →
  column col df = Some values →
  column col (foldl clean_column df cols)
  = Some (if bool_decide (col ∈ cols) then clean_value <$> values else values).
Proof.
  revert df values. induction cols as [|c cols IH]; intros df values Hnd Hcol.
  - done.
  - apply NoDup_cons in Hnd as [Hc Hnd]. cbn [foldl].
    destruct (decide (c = col)) as [->|Hne].
    + rewrite (IH _ _ Hnd (clean_column_same df col values Hcol)).
      rewrite bool_decide_eq_false_2 by done.
      by rewrite bool_decide_eq_true_2 by (by left).
    + rewrite (IH (clean_column df c) values Hnd); last first.
      { by rewrite clean_column_other. }
      f_equal. destruct (decide (col ∈ cols)) as [Hin|Hin].
      * rewrite !bool_decide_eq_true_2; [done| by right | done].
      * rewrite !bool_decide_eq_false_2; [done| |done].
        intros [?|?]%elem_of_cons; congruence.
Qed.

End options.

(** X9.  The cleaning loop of [get_filter_options], on a frame whose
    column names are distinct and whose cells hold integers or ASCII texts,
    rewrites every cell of every column through strip, upper-case and the
    replacement of [NAN] by the empty text, and keeps the columns and the
    number of rows; a cleaned cell is a text that is its own strip and
    upper-case and is never [NAN], so cleaning it again changes nothing. *)
Theorem clean_options_normalises (df : DataFrame) :
  NoDup (names df) →
  plain_frame df →
  names (clean_options df) = names df
  ∧ index_len (clean_options df) = index_len df
  ∧ (∀ col values, column col df = Some values →
       column col (clean_options df) = Some (clean_value <$> values))
  ∧ (∀ v, plain v = true →
          strip (text_of (clean_value v)) = text_of (clean_value v)
          ∧ upper (text_of (clean_value v)) = text_of (clean_value v)
          ∧ text_of (clean_value v) ≠ "NAN"
          ∧ clean_value v = CStr (text_of (clean_value v)))
  ∧ (∀ v, plain v = true → clean_value (clean_value v) = clean_value v).
Proof.
  intros Hnd _. unfold clean_options. split_and!.
  - apply foldl_clean_names.
  - apply foldl_clean_names.
  - intros col values Hcol. rewrite (foldl_clean_column df _ col values Hnd Hcol).
    rewrite bool_decide_eq_true_2; [done|].
    apply assoc_Some_names. unfold column in Hcol. eauto.
  - intros v _. rewrite clean_value_text. cbn [text_of].
    set (s := upper (strip (str_of_cell v))).
    assert (Hstrip : strip s = s).
    { unfold s. by rewrite upper_strip, strip_idem. }
    assert (Hupper : upper s = s) by (unfold s; apply upper_idem).
    by case_decide.
  - intros v _. apply clean_value_idem.
Qed.

Lemma clean_options_normalises_witness :
  NoDup (names (mkDF 2 [("team", [CStr " rtl_Team "; CStr "nan"]);
                        ("chip_id", [CStr "c1"; CInt 7])]))
  ∧ plain_frame (mkDF 2 [("team", [CStr " rtl_Team "; CStr "nan"]);
                         ("chip_id", [CStr "c1"; CInt 7])])
  ∧ columns (clean_options
               (mkDF 2 [("team", [CStr " rtl_Team "; CStr "nan"]);
                        ("chip_id", [CStr "c1"; CInt 7])]))
    = [("team", [CStr "RTL_TEAM"; CStr ""]); ("chip_id", [CStr "C1"; CStr "7"])]
  ∧ names (clean_options
             (mkDF 2 [("team", [CStr " rtl_Team "; CStr "nan"]);
                      ("chip_id", [CStr "c1"; CInt 7])]))
    = ["team"; "chip_id"].
Proof.
  assert (H : NoDup (names (mkDF 2 [("team", [CStr " rtl_Team "; CStr "nan"]);
                                     ("chip_id", [CStr "c1"; CInt 7])]))).
  { apply (bool_decide_unpack _). reflexivity. }
  assert (P : plain_frame (mkDF 2 [("team", [CStr " rtl_Team "; CStr "nan"]);
                                    ("chip_id", [CStr "c1"; CInt 7])])).
  { by repeat constructor. }
  split; [exact H|]. split; [exact P|]. split; [reflexivity|].
  exact (proj1 (clean_options_normalises _ H P)).
Defined.

(** X10.  Display and binding agree on ASCII texts: a stored text without
    surrounding whitespace that does not read [NAN] is offered upper-cased,
    and the option, once selected, is bound as the lower-cased stored text;
    in general the bound parameter of an option is the lower-cased strip of
    the stored text. *)
Theorem option_round_trip (s : string) col :
  is_ascii s = true →
  strip s = s →
  upper s ≠ "NAN" →
  clean_value (CStr s) = CStr (upper s)
  ∧ (build_where_clause [(col, [text_of (clean_value (CStr s))])]).2 = [lower s]
  ∧ (∀ t : string, is_ascii t = true → lower (upper (strip t)) = lower (strip t)).
Proof.
  intros _ Hstrip Hnan. split_and!.
  - rewrite clean_value_text. cbn [str_of_cell]. rewrite Hstrip. by rewrite decide_False.
  - rewrite clean_value_text. cbn [str_of_cell]. rewrite Hstrip, decide_False by done.
    cbn [text_of]. rewrite build_where_clause_eq. cbn. by rewrite lower_upper.
  - intros t _. apply lower_upper.
Qed.

Lemma option_round_trip_witness :
  is_ascii "RTL_Team" = true
  ∧ strip "RTL_Team" = "RTL_Team"
  ∧ upper "RTL_Team" ≠ "NAN"
  ∧ (build_where_clause [("team", [text_of (clean_value (CStr "RTL_Team"))])]).2
    = ["rtl_team"].
Proof.
  split; [reflexivity|]. split; [reflexivity|]. split; [done|].
  exact (proj1 (proj2 (option_round_trip "RTL_Team" "team" eq_refl eq_refl ltac:(done)))).
Defined.
